(** * The parsers manager of plaso (plaso/parsers/manager.py)

    A shallow embedding of [ParsersManager]: the class attribute
    [_parser_classes] is a finite map from lower case parser names to parser
    classes, every class method is a computation over that map, and [KeyError]
    is an explicit outcome that leaves the map as the method left it. *)

From Stdlib Require Import ZArith NArith Ascii String.
From stdpp Require Import gmap strings list fin_maps.

Local Open Scope string_scope.
Local Open Scope Z_scope.
Local Open Scope list_scope.

(** ** Text

    Filter strings and names are sequences of characters.  Case and white
    space are those of the ASCII range: the methods [lower] and [strip] of a
    Python 2 unicode string leave every other character of that range alone. *)

Module Text.

Definition code (c : ascii) : N := N_of_ascii c.

(** [c.lower()] of one character: 'A'..'Z' move to 'a'..'z'. *)
Definition lower_char (c : ascii) : ascii :=
  if ((65 <=? code c) && (code c <=? 90))%N
  then ascii_of_N (code c + 32) else c.

(** [c.isspace()]: tab, line feed, vertical tab, form feed, carriage
    return, the four separators 0x1c..0x1f and the space. *)
Definition isspace (c : ascii) : bool :=
  (((9 <=? code c) && (code c <=? 13))
   || ((28 <=? code c) && (code c <=? 31))
   || (code c =? 32))%N.

Fixpoint lower (s : string) : string :=
  match s with
  | EmptyString => EmptyString
  | String c s' => String (lower_char c) (lower s')
  end.

Fixpoint lstrip (s : string) : string :=
  match s with
  | EmptyString => EmptyString
  | String c s' => if isspace c then lstrip s' else s
  end.

Fixpoint rstrip (s : string) : string :=
  match s with
  | EmptyString => EmptyString
  | String c s' =>
      match rstrip s' with
      | EmptyString => if isspace c then EmptyString else String c EmptyString
      | r => String c r
      end
  end.

(** [s.strip()] *)
Definition strip (s : string) : string := rstrip (lstrip s).

(** [s.split(sep)] for a one character separator: never the empty list,
    and one more piece than there are separators. *)
Fixpoint split (sep : ascii) (s : string) : list string :=
  match s with
  | EmptyString => [EmptyString]
  | String c s' =>
      if decide (c = sep) then EmptyString :: split sep s'
      else match split sep s' with
           | [] => [String c EmptyString]
           | piece :: pieces => String c piece :: pieces
           end
  end.

(** [sep.join(pieces)] *)
Fixpoint join (sep : ascii) (pieces : list string) : string :=
  match pieces with
  | [] => EmptyString
  | [piece] => piece
  | piece :: pieces' => piece +:+ String sep (join sep pieces')
  end.

(** [s.startswith(c)] for a one character prefix. *)
Definition startswith (c : ascii) (s : string) : bool :=
  match s with
  | String c' _ => bool_decide (c' = c)
  | EmptyString => false
  end.

(** [s[1:]] *)
Definition tail (s : string) : string :=
  match s with
  | String _ s' => s'
  | EmptyString => EmptyString
  end.

End Text.

(** ** Data model *)

(** [pysigscan.signature_flags], the three values the manager uses. *)
Inductive signature_flags : Type :=
  | NO_OFFSET
  | RELATIVE_FROM_START
  | RELATIVE_FROM_END.

(** A signature of a format specification: [offset] is [None] or a Python
    integer, [pattern] a byte string. *)
Record Signature : Type := {
  identifier : string;
  pattern : string;
  offset : option Z
}.

(** A format specification (plaso.lib.specification.FormatSpecification). *)
Record FormatSpecification : Type := {
  spec_identifier : string;
  signatures : list Signature
}.

(** Modelled from the spec: [FormatSpecificationStore] of
    plaso.lib.specification, a module other than the manager's.
    The store is the collection of the format specifications added to it;
    [AddSpecification] adds one and [specifications] enumerates them. *)
Record FormatSpecificationStore : Type := {
  specifications : list FormatSpecification
}.

Definition new_FormatSpecificationStore : FormatSpecificationStore :=
  {| specifications := [] |}.

Definition AddSpecification (store : FormatSpecificationStore)
    (format_specification : FormatSpecification) : FormatSpecificationStore :=
  {| specifications := specifications store ++ [format_specification] |}.

(** The plugin list of a parser with plugins; the manager only hands it on. *)
Record PluginList : Type := { plugin_list_names : list string }.

(** What the manager uses of a parser class (a subclass of BaseParser). *)
Record ParserClass : Type := {
  NAME : string;
  SupportsPlugins : bool;
  GetPluginNames : list string;
  GetFormatSpecification : option FormatSpecification;
  GetPluginList : PluginList
}.

(** A parser object: the instance [parser_class()]. *)
Record ParserObject : Type := { class_of : ParserClass }.

(** Modelled from the spec: the preset catalog plaso.frontend.presets, a
    module other than the manager's: the keys of [presets.categories] and
    [presets.GetParsersFromCategory]. *)
Record Presets : Type := {
  categories_keys : list string;
  GetParsersFromCategory : string → list string
}.

(** One call of [scanner_object.add_signature]. *)
Record ScannerSignature : Type := {
  sig_identifier : string;
  sig_offset : option Z;
  sig_pattern : string;
  sig_flags : signature_flags
}.

(** [pysigscan.scanner]: the signatures added so far, in the order added. *)
Record scanner : Type := { scanner_signatures : list ScannerSignature }.

Definition new_scanner : scanner := {| scanner_signatures := [] |}.

Definition add_signature (scanner_object : scanner) (id : string)
    (pattern_offset : option Z) (pat : string) (flags : signature_flags)
    : scanner :=
  {| scanner_signatures :=
       scanner_signatures scanner_object
         ++ [{| sig_identifier := id; sig_offset := pattern_offset;
                sig_pattern := pat; sig_flags := flags |}] |}.

#[global] Instance signature_flags_eq_dec : EqDecision signature_flags.
Proof. solve_decision. Defined.
#[global] Instance Signature_eq_dec : EqDecision Signature.
Proof. solve_decision. Defined.
#[global] Instance FormatSpecification_eq_dec : EqDecision FormatSpecification.
Proof. solve_decision. Defined.
#[global] Instance ScannerSignature_eq_dec : EqDecision ScannerSignature.
Proof. solve_decision. Defined.

(** ** Computations over the registry

    A class method runs on the current [_parser_classes] and ends either with
    a value or with a raised exception; in both cases the map it leaves behind
    is part of the outcome. *)

Inductive Exception : Type :=
  | KeyError (message : string).

Inductive Result (A : Type) : Type :=
  | Return (value : A)
  | Raise (exception : Exception).
Arguments Return {A} value.
Arguments Raise {A} exception.

Definition M (A : Type) : Type :=
  gmap string ParserClass → Result A * gmap string ParserClass.

Definition ret {A} (a : A) : M A := λ parser_classes, (Return a, parser_classes).

Definition bind {A B} (m : M A) (k : A → M B) : M B :=
  λ parser_classes,
    match m parser_classes with
    | (Return a, parser_classes') => k a parser_classes'
    | (Raise e, parser_classes') => (Raise e, parser_classes')
    end.

Definition raise {A} (e : Exception) : M A :=
  λ parser_classes, (Raise e, parser_classes).

(** Reading and replacing [cls._parser_classes]. *)
Definition get_parser_classes : M (gmap string ParserClass) :=
  λ parser_classes, (Return parser_classes, parser_classes).

Definition set_parser_classes (parser_classes : gmap string ParserClass) : M unit :=
  λ _, (Return tt, parser_classes).

Declare Scope manager_scope.
Delimit Scope manager_scope with manager.
Notation "x <- m ;; k" := (bind m (λ x, k))
  (at level 100, m at next level, right associativity) : manager_scope.
Notation "m ;; k" := (bind m (λ _, k))
  (at level 100, right associativity) : manager_scope.
Local Open Scope manager_scope.

(** A [for] loop whose body updates the loop's local variables [a]. *)
Fixpoint for_each {A B} (l : list B) (body : A → B → M A) (a : A) : M A :=
  match l with
  | [] => ret a
  | x :: l' => a' <- body a x ;; for_each l' body a'
  end.

(** ** The class methods of ParsersManager *)

(** Truth value of a Python list that may be [None]. *)
Definition truthy_list {A} (l : option (list A)) : bool :=
  match l with
  | Some (_ :: _) => true
  | _ => false
  end.

(** [name in l], for [l] a list (the test is only made on a true [l]). *)
Definition name_in (name : string) (l : option (list string)) : bool :=
  match l with
  | Some names => bool_decide (name ∈ names)
  | None => false
  end.

(** [active_list] names one of the two lists under construction: appending
    to it appends to that list. *)
Inductive ActiveList : Type := includes_list | excludes_list.

Definition extend (active_list : ActiveList) (names : list string)
    (lists : list string * list string) : list string * list string :=
  match active_list with
  | includes_list => (lists.1 ++ names, lists.2)
  | excludes_list => (lists.1, lists.2 ++ names)
  end.

Definition append (active_list : ActiveList) (name : string)
    (lists : list string * list string) : list string * list string :=
  extend active_list [name] lists.

(** [u'Parser class not set for name: {0:s}.'.format(name)] *)
Definition not_set_message (name : string) : string :=
  "Parser class not set for name: " +:+ name +:+ ".".

(** [u'Parser class already set for name: {0:s}.'.format(name)] *)
Definition already_set_message (name : string) : string :=
  "Parser class already set for name: " +:+ name +:+ ".".

Definition DeregisterParser (parser_class : ParserClass) : M unit :=
  let parser_name := Text.lower (NAME parser_class) in
  parser_classes <- get_parser_classes ;;
  if bool_decide (parser_name ∉ dom parser_classes)
  then raise (KeyError (not_set_message (NAME parser_class)))
  else set_parser_classes (delete parser_name parser_classes).

Definition RegisterParser (parser_class : ParserClass) : M unit :=
  let parser_name := Text.lower (NAME parser_class) in
  parser_classes <- get_parser_classes ;;
  if bool_decide (parser_name ∈ dom parser_classes)
  then raise (KeyError (already_set_message (NAME parser_class)))
  else set_parser_classes (<[parser_name := parser_class]> parser_classes).

Definition RegisterParsers (parser_classes : list ParserClass) : M unit :=
  for_each parser_classes (λ _ parser_class, RegisterParser parser_class) tt.

Definition GetWindowsRegistryPlugins : M (option PluginList) :=
  parser_classes <- get_parser_classes ;;
  match parser_classes !! "winreg" with
  | None => ret None
  | Some parser_class => ret (Some (GetPluginList parser_class))
  end.

(** The signature flags and the offset handed to [add_signature] for a
    signature offset. *)
Definition scanner_offset (pattern_offset : option Z)
    : option Z * signature_flags :=
  match pattern_offset with
  | None => (None, NO_OFFSET)
  | Some n =>
      if n <? 0 then (Some (n * -1), RELATIVE_FROM_END)
      else (Some n, RELATIVE_FROM_START)
  end.

Definition GetScanner (specification_store : FormatSpecificationStore)
    : scanner :=
  fold_left
    (λ scanner_object format_specification,
       fold_left
         (λ scanner_object signature,
            let '(pattern_offset, flags) := scanner_offset (offset signature) in
            add_signature scanner_object (identifier signature) pattern_offset
              (pattern signature) flags)
         (signatures format_specification) scanner_object)
    (specifications specification_store) new_scanner.

Section Manager.

Context (presets : Presets).

(** One turn of the loop of [GetFilterListsFromString]; [lists] is the pair
    [(includes, excludes)]. *)
Definition filter_step (lists : list string * list string)
    (filter_string : string) : M (list string * list string) :=
  let preset_categories := categories_keys presets in
  let filter_string := Text.strip filter_string in
  if bool_decide (filter_string = "") then ret lists
  else
    let active_list :=
      if Text.startswith "-" filter_string then excludes_list
      else includes_list in
    let filter_string :=
      if Text.startswith "-" filter_string then Text.tail filter_string
      else filter_string in
    let filter_string := Text.lower filter_string in
    parser_classes <- get_parser_classes ;;
    match parser_classes !! filter_string with
    | Some parser_class =>
        let lists := append active_list filter_string lists in
        if SupportsPlugins parser_class
        then ret (extend active_list (GetPluginNames parser_class) lists)
        else ret lists
    | None =>
        if bool_decide (filter_string ∈ preset_categories)
        then ret (extend active_list
                    (GetParsersFromCategory presets filter_string) lists)
        else ret (append active_list filter_string lists)
    end.

Definition GetFilterListsFromString (parser_filter_string : string)
    : M (list string * list string) :=
  for_each (Text.split "," parser_filter_string) filter_step ([], []).

(** The generator [GetParsers], as the list of the pairs it yields. *)
Definition GetParsers (parser_filter_string : option string)
    : M (list (string * ParserClass)) :=
  lists <-
    match parser_filter_string with
    | Some (String c s) =>
        lists <- GetFilterListsFromString (String c s) ;;
        ret (Some lists.1, Some lists.2)
    | _ => ret (None, None)
    end ;;
  let includes : option (list string) := lists.1 in
  let excludes : option (list string) := lists.2 in
  parser_classes <- get_parser_classes ;;
  ret (filter
         (λ item : string * ParserClass,
            negb (truthy_list excludes && name_in item.1 excludes)
            && negb (truthy_list includes && negb (name_in item.1 includes)))
         (map_to_list parser_classes)).

Definition GetParserNames (parser_filter_string : option string)
    : M (list string) :=
  parsers <- GetParsers parser_filter_string ;;
  for_each parsers
    (λ parser_names item, ret (parser_names ++ [item.1])) [].

Definition GetParserObjects (parser_filter_string : option string)
    : M (gmap string ParserObject) :=
  parsers <- GetParsers parser_filter_string ;;
  for_each parsers
    (λ parser_objects item,
       ret (<[item.1 := {| class_of := item.2 |}]> parser_objects)) ∅.

Definition GetSpecificationStore (parser_filter_string : option string)
    : M (FormatSpecificationStore * list string) :=
  parsers <- GetParsers parser_filter_string ;;
  for_each parsers
    (λ (state : FormatSpecificationStore * list string) item,
       let '(specification_store, remainder_list) := state in
       match GetFormatSpecification item.2 with
       | Some format_specification =>
           ret (AddSpecification specification_store format_specification,
                remainder_list)
       | None => ret (specification_store, remainder_list ++ [item.1])
       end)
    (new_FormatSpecificationStore, []).

End Manager.

(** ** The specification's wording

    Definitions that follow the text of the specification (sections 4.2, 4.3
    and 4.5), to be compared with the methods above. *)

Module Spec.

(** 4.2, step 1: split on comma, trim white space, drop empty tokens. *)
Definition tokens (filter_string : string) : list string :=
  filter (λ token, token ≠ "") (Text.strip <$> Text.split "," filter_string).

(** 4.2, step 2: a token that starts with the negation marker targets the
    exclude list. *)
Definition negated (token : string) : bool := Text.startswith "-" token.

(** 4.2, steps 2 and 3: the marker stripped, the rest in lower case. *)
Definition token_name (token : string) : string :=
  Text.lower (if negated token then Text.tail token else token).

Section Resolver.

Context (presets : Presets) (registry : gmap string ParserClass).

(** 4.2, step 4: (a) a registered parser name, followed by its plugin
    names when it supports plugins; (b) else the parser names of the
    preset category of that name; (c) else the name itself. *)
Definition resolve (name : string) : list string :=
  match registry !! name with
  | Some descriptor =>
      name :: (if SupportsPlugins descriptor
               then GetPluginNames descriptor else [])
  | None =>
      if bool_decide (name ∈ categories_keys presets)
      then GetParsersFromCategory presets name
      else [name]
  end.

Definition includes (filter_string : string) : list string :=
  mbind (λ token, resolve (token_name token))
    (filter (λ token, negated token = false) (tokens filter_string)).

Definition excludes (filter_string : string) : list string :=
  mbind (λ token, resolve (token_name token))
    (filter (λ token, negated token = true) (tokens filter_string)).

(** 4.3: every pair of the registry for an empty or absent filter string;
    otherwise the pairs whose name is not in the excludes and, when the
    includes are not empty, is in the includes. *)
Definition SelectParsers (filter_string : option string)
    : list (string * ParserClass) :=
  match filter_string with
  | None | Some "" => map_to_list registry
  | Some s =>
      filter
        (λ item : string * ParserClass,
           (item.1 ∉ excludes s) ∧ (includes s = [] ∨ item.1 ∈ includes s))
        (map_to_list registry)
  end.

End Resolver.

(** 4.5: the rule emitted for one signature. *)
Definition emitted_rule (signature : Signature) : ScannerSignature :=
  match offset signature with
  | None =>
      {| sig_identifier := identifier signature; sig_offset := None;
         sig_pattern := pattern signature; sig_flags := NO_OFFSET |}
  | Some n =>
      if decide (n < 0)
      then {| sig_identifier := identifier signature;
              sig_offset := Some (Z.abs n);
              sig_pattern := pattern signature;
              sig_flags := RELATIVE_FROM_END |}
      else {| sig_identifier := identifier signature;
              sig_offset := Some n;
              sig_pattern := pattern signature;
              sig_flags := RELATIVE_FROM_START |}
  end.

(** 4.5: one rule per signature of every format specification of the
    store. *)
Definition BuildScannerConfig (store : FormatSpecificationStore)
    : list ScannerSignature :=
  mbind (λ format_specification,
           emitted_rule <$> signatures format_specification)
    (specifications store).

(** 4.4: a parser is in the store when the format specification it declares
    is one of the store's. *)
Definition in_store (descriptor : ParserClass)
    (store : FormatSpecificationStore) : Prop :=
  ∃ format_specification,
    GetFormatSpecification descriptor = Some format_specification
    ∧ format_specification ∈ specifications store.

#[global] Instance in_store_dec descriptor store :
  Decision (in_store descriptor store).
Proof.
  refine
    (match GetFormatSpecification descriptor as o
           return GetFormatSpecification descriptor = o → _ with
     | Some fs => λ E,
         cast_if (decide (fs ∈ specifications store))
     | None => λ E, right _
     end eq_refl); unfold in_store.
  - exists fs; auto.
  - intros (fs' & E' & Hin). congruence.
  - intros (fs' & E' & _). congruence.
Defined.

End Spec.

(** ** A small installation, for examples *)

Module Sample.

Definition parser (name : string) (plugins : option (list string))
    (format_specification : option FormatSpecification) : ParserClass :=
  {| NAME := name;
     SupportsPlugins := bool_decide (is_Some plugins);
     GetPluginNames := default [] plugins;
     GetFormatSpecification := format_specification;
     GetPluginList := {| plugin_list_names := default [] plugins |} |}.

Definition lnk_signature : Signature :=
  {| identifier := "lnk:0"; pattern := "L"; offset := Some 0 |}.
Definition trailer_signature : Signature :=
  {| identifier := "zip:0"; pattern := "PK"; offset := Some (-4) |}.
Definition floating_signature : Signature :=
  {| identifier := "zip:1"; pattern := "PK"; offset := None |}.
Definition deep_signature : Signature :=
  {| identifier := "lnk:1"; pattern := "F"; offset := Some 10 |}.

Definition lnk_specification : FormatSpecification :=
  {| spec_identifier := "lnk";
     signatures := [lnk_signature; deep_signature] |}.
Definition zip_specification : FormatSpecification :=
  {| spec_identifier := "zip";
     signatures := [trailer_signature; floating_signature] |}.
(** A format specification that declares no signature at all. *)
Definition bare_specification : FormatSpecification :=
  {| spec_identifier := "bare"; signatures := [] |}.

Definition Foo : ParserClass := parser "Foo" None None.
Definition bar : ParserClass := parser "bar" None None.
Definition Lnk : ParserClass := parser "lnk" None (Some lnk_specification).
Definition Zip : ParserClass := parser "ZIP" None (Some zip_specification).
Definition Bare : ParserClass := parser "bare" None (Some bare_specification).
Definition P : ParserClass := parser "P" (Some ["a"; "b"]) None.
Definition Winreg : ParserClass :=
  parser "winreg" (Some ["run"; "userassist"]) None.
(** The Windows Registry parser, named in mixed case. *)
Definition WinReg : ParserClass :=
  parser "WinReg" (Some ["run"; "userassist"]) None.
(** A second class with the name of [Foo], up to case. *)
Definition FOO : ParserClass := parser "FOO" None (Some lnk_specification).

Definition presets : Presets :=
  {| categories_keys := ["browsers"];
     GetParsersFromCategory := λ category,
       if bool_decide (category = "browsers") then ["chrome"; "firefox"]
       else [] |}.

(** A catalog that has a category with the empty name. *)
Definition odd_presets : Presets :=
  {| categories_keys := [""; "browsers"];
     GetParsersFromCategory := λ category,
       if bool_decide (category = "") then ["chrome"]
       else if bool_decide (category = "browsers") then ["chrome"; "firefox"]
       else [] |}.

Definition registry : gmap string ParserClass :=
  <["foo" := Foo]> (<["bar" := bar]> (<["lnk" := Lnk]> (<["zip" := Zip]>
    (<["p" := P]> ∅)))).

(** A class registered under the empty name. *)
Definition Nameless : ParserClass := parser "" None None.

Definition nameless_registry : gmap string ParserClass :=
  <["" := Nameless]> (<["foo" := Foo]> ∅).

Definition bare_registry : gmap string ParserClass :=
  <["bare" := Bare]> (<["foo" := Foo]> ∅).

Definition store : FormatSpecificationStore :=
  {| specifications := [lnk_specification; zip_specification] |}.

End Sample.

(** ** Text: sanity of the string operations *)

Lemma split_nonempty sep s : Text.split sep s ≠ [].
Proof.
  destruct s as [|c s]; simpl; [done|].
  case_decide; [done|]. by destruct (Text.split sep s).
Qed.

Lemma join_split sep s : Text.join sep (Text.split sep s) = s.
Proof.
  induction s as [|c s IH]; simpl; [done|].
  pose proof (split_nonempty sep s) as Hne.
  case_decide as Hc.
  - subst c. destruct (Text.split sep s) as [|piece pieces]; [done|].
    simpl in *. by rewrite IH.
  - destruct (Text.split sep s) as [|piece pieces]; [done|].
    destruct pieces as [|piece' pieces]; simpl in *; by rewrite <- IH.
Qed.

Example split_filter_string :
  Text.split "," " a , -B ,, - ,c d" = [" a "; " -B "; ""; " - "; "c d"].
Proof. reflexivity. Qed.

Example strip_tokens :
  Text.strip <$> [" a "; " -B "; ""; " - "; "c d"] = ["a"; "-B"; ""; "-"; "c d"].
Proof. reflexivity. Qed.

Example strip_inner_space : Text.strip "  a b   " = "a b".
Proof. reflexivity. Qed.

Example strip_only_space : Text.strip "   " = "".
Proof. reflexivity. Qed.

Example split_empty : Text.split "," "" = [""].
Proof. reflexivity. Qed.

Example lower_name : Text.lower "WinReg_2" = "winreg_2".
Proof. reflexivity. Qed.

Lemma lstrip_no_space c s :
  Text.isspace c = false → Text.lstrip (String c s) = String c s.
Proof. intros H. simpl. by rewrite H. Qed.

(** ** Loops and sequencing *)

Lemma for_each_app {A B} (l1 l2 : list B) (body : A → B → M A) a reg :
  for_each (l1 ++ l2) body a reg
  = (a' <- for_each l1 body a ;; for_each l2 body a') reg.
Proof.
  revert a reg. induction l1 as [|x l1 IH]; intros a reg; simpl.
  - reflexivity.
  - unfold bind in *. destruct (body a x reg) as [[a'|e] reg'].
    + apply IH.
    + reflexivity.
Qed.

(** A loop whose body only computes, on an unchanged registry. *)
Lemma for_each_pure {A B} (f : A → B → A) (body : A → B → M A) l a reg :
  (∀ a x, body a x reg = (Return (f a x), reg)) →
  for_each l body a reg = (Return (fold_left f l a), reg).
Proof.
  intros Hbody. revert a. induction l as [|x l IH]; intros a; simpl.
  - reflexivity.
  - unfold bind. rewrite Hbody. apply IH.
Qed.

(** ** Registration *)

Lemma RegisterParser_fresh parser_class reg :
  Text.lower (NAME parser_class) ∉ dom reg →
  RegisterParser parser_class reg
  = (Return tt, <[Text.lower (NAME parser_class) := parser_class]> reg).
Proof.
  intros Hfresh. unfold RegisterParser, bind, get_parser_classes.
  by rewrite bool_decide_eq_false_2.
Qed.

Lemma RegisterParser_taken parser_class reg :
  Text.lower (NAME parser_class) ∈ dom reg →
  RegisterParser parser_class reg
  = (Raise (KeyError (already_set_message (NAME parser_class))), reg).
Proof.
  intros Htaken. unfold RegisterParser, bind, get_parser_classes.
  by rewrite bool_decide_eq_true_2.
Qed.

Lemma DeregisterParser_present parser_class reg :
  Text.lower (NAME parser_class) ∈ dom reg →
  DeregisterParser parser_class reg
  = (Return tt, delete (Text.lower (NAME parser_class)) reg).
Proof.
  intros Hin. unfold DeregisterParser, bind, get_parser_classes.
  rewrite bool_decide_eq_false_2; [done|]. by intros Hn.
Qed.

Lemma DeregisterParser_absent parser_class reg :
  Text.lower (NAME parser_class) ∉ dom reg →
  DeregisterParser parser_class reg
  = (Raise (KeyError (not_set_message (NAME parser_class))), reg).
Proof.
  intros Hout. unfold DeregisterParser, bind, get_parser_classes.
  by rewrite bool_decide_eq_true_2.
Qed.

(** C6: [RegisterParser] raises [KeyError] exactly when the lower case name of
    the class is a key of the registry, and otherwise stores the class under
    that name; [DeregisterParser] raises [KeyError] exactly when the lower
    case name is not a key, and otherwise deletes it; a call that raises
    leaves the registry as it was. *)
Theorem RegisterParser_DeregisterParser_KeyError
    (parser_class : ParserClass) (reg : gmap string ParserClass) :
  let parser_name := Text.lower (NAME parser_class) in
  ((∃ e, (RegisterParser parser_class reg).1 = Raise e) ↔ parser_name ∈ dom reg)
  ∧ (parser_name ∈ dom reg →
     RegisterParser parser_class reg
     = (Raise (KeyError (already_set_message (NAME parser_class))), reg))
  ∧ (parser_name ∉ dom reg →
     RegisterParser parser_class reg
     = (Return tt, <[parser_name := parser_class]> reg))
  ∧ ((∃ e, (DeregisterParser parser_class reg).1 = Raise e)
     ↔ parser_name ∉ dom reg)
  ∧ (parser_name ∉ dom reg →
     DeregisterParser parser_class reg
     = (Raise (KeyError (not_set_message (NAME parser_class))), reg))
  ∧ (parser_name ∈ dom reg →
     DeregisterParser parser_class reg = (Return tt, delete parser_name reg)).
Proof.
  intros parser_name. subst parser_name.
  split_and!.
  - split.
    + intros [e He].
      destruct (decide (Text.lower (NAME parser_class) ∈ dom reg)) as [|Hn];
        [done|].
      rewrite RegisterParser_fresh in He by done. discriminate.
    + intros Hin. rewrite RegisterParser_taken by done. eauto.
  - apply RegisterParser_taken.
  - apply RegisterParser_fresh.
  - split.
    + intros [e He] Hin.
      rewrite DeregisterParser_present in He by done. discriminate.
    + intros Hout. rewrite DeregisterParser_absent by done. eauto.
  - apply DeregisterParser_absent.
  - apply DeregisterParser_present.
Qed.

Lemma RegisterParser_DeregisterParser_KeyError_witness :
  RegisterParser Sample.FOO Sample.registry
  = (Raise (KeyError "Parser class already set for name: FOO."),
     Sample.registry)
  ∧ DeregisterParser Sample.Winreg Sample.registry
    = (Raise (KeyError "Parser class not set for name: winreg."),
       Sample.registry)
  ∧ RegisterParser Sample.Winreg Sample.registry
    = (Return tt, <["winreg" := Sample.Winreg]> Sample.registry)
  ∧ DeregisterParser Sample.FOO Sample.registry
    = (Return tt, delete "foo" Sample.registry).
Proof.
  destruct (RegisterParser_DeregisterParser_KeyError Sample.FOO Sample.registry)
    as (_ & Htaken & _ & _ & _ & Hpresent).
  destruct (RegisterParser_DeregisterParser_KeyError Sample.Winreg
              Sample.registry)
    as (_ & _ & Hfresh & _ & Habsent & _).
  split_and!.
  - apply Htaken. apply elem_of_dom. by eexists.
  - apply Habsent. by apply not_elem_of_dom.
  - apply Hfresh. by apply not_elem_of_dom.
  - apply Hpresent. apply elem_of_dom. by eexists.
Defined.

Lemma RegisterParsers_cons parser_class parser_classes reg :
  RegisterParsers (parser_class :: parser_classes) reg
  = (RegisterParser parser_class ;; RegisterParsers parser_classes) reg.
Proof.
  unfold RegisterParsers. simpl. unfold bind.
  by destruct (RegisterParser parser_class reg) as [[[]|e] reg'].
Qed.

(** What a successful bulk registration leaves behind: every class of the
    list under its lower case name, and nothing else touched. *)
Lemma RegisterParsers_success parser_classes reg reg' :
  RegisterParsers parser_classes reg = (Return tt, reg') →
  reg ⊆ reg'
  ∧ (∀ p, p ∈ parser_classes → reg' !! Text.lower (NAME p) = Some p)
  ∧ (∀ name, name ∉ (λ p, Text.lower (NAME p)) <$> parser_classes →
             reg' !! name = reg !! name).
Proof.
  revert reg. induction parser_classes as [|p l IH]; intros reg Hrun.
  - injection Hrun as <-. split_and!; [done| |done].
    intros p Hp. by apply elem_of_nil in Hp.
  - rewrite RegisterParsers_cons in Hrun. unfold bind in Hrun.
    destruct (decide (Text.lower (NAME p) ∈ dom reg)) as [Hin|Hout].
    { rewrite RegisterParser_taken in Hrun by done. discriminate. }
    rewrite RegisterParser_fresh in Hrun by done.
    destruct (IH _ Hrun) as (Hsub & Hall & Hframe).
    apply not_elem_of_dom in Hout.
    assert (reg ⊆ reg') as Hsub'.
    { etrans; [|exact Hsub]. by apply insert_subseteq. }
    split_and!; [done| |].
    + intros q [->|Hq]%elem_of_cons; [|by apply Hall].
      eapply lookup_weaken; [|exact Hsub]. apply lookup_insert_eq.
    + intros name Hname. rewrite fmap_cons in Hname.
      apply not_elem_of_cons in Hname as [Hne Hname].
      rewrite Hframe by done. by rewrite lookup_insert_ne.
Qed.

(** A list of classes with fresh, pairwise different lower case names is
    registered as a whole. *)
Lemma RegisterParsers_all_fresh parser_classes reg :
  NoDup ((λ p, Text.lower (NAME p)) <$> parser_classes) →
  (∀ p, p ∈ parser_classes → Text.lower (NAME p) ∉ dom reg) →
  ∃ reg', RegisterParsers parser_classes reg = (Return tt, reg').
Proof.
  revert reg. induction parser_classes as [|p l IH]; intros reg Hnd Hfresh.
  - by exists reg.
  - rewrite fmap_cons in Hnd. apply NoDup_cons in Hnd as [Hp Hnd].
    rewrite RegisterParsers_cons. unfold bind.
    rewrite RegisterParser_fresh by (apply Hfresh; left).
    apply IH; [done|].
    intros q Hq. rewrite dom_insert_L, not_elem_of_union. split.
    + rewrite not_elem_of_singleton. intros Heq. apply Hp.
      rewrite <- Heq. apply list_elem_of_fmap. by exists q.
    + apply Hfresh. by right.
Qed.

(** C7: [RegisterParsers] registers the classes in list order and stops at
    the first class whose lower case name is already registered: when the
    classes [before] were registered and the name of [parser_class] is then
    taken, the call raises [KeyError] for that class, the classes of [before]
    stay registered, and no name outside [before] is touched, whatever comes
    [after]. *)
Theorem RegisterParsers_fails_fast
    (before after : list ParserClass) (parser_class : ParserClass)
    (reg reg' : gmap string ParserClass) :
  RegisterParsers before reg = (Return tt, reg') →
  Text.lower (NAME parser_class) ∈ dom reg' →
  RegisterParsers (before ++ parser_class :: after) reg
  = (Raise (KeyError (already_set_message (NAME parser_class))), reg')
  ∧ (∀ p, p ∈ before → reg' !! Text.lower (NAME p) = Some p)
  ∧ (∀ name, name ∉ (λ p, Text.lower (NAME p)) <$> before →
             reg' !! name = reg !! name).
Proof.
  intros Hbefore Htaken.
  destruct (RegisterParsers_success _ _ _ Hbefore) as (_ & Hall & Hframe).
  split_and!; [|done|done].
  unfold RegisterParsers in *. rewrite for_each_app. unfold bind at 1.
  rewrite Hbefore. simpl. unfold bind.
  by rewrite RegisterParser_taken.
Qed.

Lemma RegisterParsers_fails_fast_witness :
  RegisterParsers [Sample.Winreg; Sample.FOO; Sample.Bare] Sample.registry
  = (Raise (KeyError "Parser class already set for name: FOO."),
     <["winreg" := Sample.Winreg]> Sample.registry)
  ∧ (<["winreg" := Sample.Winreg]> Sample.registry) !! "winreg"
    = Some Sample.Winreg
  ∧ (<["winreg" := Sample.Winreg]> Sample.registry) !! "bare" = None.
Proof.
  destruct (RegisterParsers_fails_fast [Sample.Winreg] [Sample.Bare] Sample.FOO
              Sample.registry (<["winreg" := Sample.Winreg]> Sample.registry))
    as (Hrun & Hall & Hframe).
  - reflexivity.
  - apply elem_of_dom. by eexists.
  - split_and!.
    + exact Hrun.
    + apply (Hall Sample.Winreg). by left.
    + rewrite (Hframe "bare"); [reflexivity|].
      simpl. by intros ?%list_elem_of_singleton.
Defined.

(** ** The scanner *)

Lemma scanner_offset_emitted signature scanner_object :
  (let '(pattern_offset, flags) := scanner_offset (offset signature) in
   add_signature scanner_object (identifier signature) pattern_offset
     (pattern signature) flags)
  = {| scanner_signatures :=
         scanner_signatures scanner_object ++ [Spec.emitted_rule signature] |}.
Proof.
  unfold scanner_offset, Spec.emitted_rule, add_signature.
  destruct (offset signature) as [n|]; [|done].
  destruct (Z.ltb_spec n 0); case_decide; try lia; [|done].
  by replace (n * -1) with (Z.abs n) by lia.
Qed.

Lemma GetScanner_signatures_loop sigs scanner_object :
  scanner_signatures
    (fold_left
       (λ scanner_object signature,
          let '(pattern_offset, flags) := scanner_offset (offset signature) in
          add_signature scanner_object (identifier signature) pattern_offset
            (pattern signature) flags)
       sigs scanner_object)
  = scanner_signatures scanner_object ++ (Spec.emitted_rule <$> sigs).
Proof.
  revert scanner_object. induction sigs as [|sig sigs IH]; intros sc; simpl.
  - by rewrite app_nil_r.
  - rewrite scanner_offset_emitted, IH. simpl. by rewrite <- app_assoc.
Qed.

Lemma GetScanner_specifications_loop specs scanner_object :
  scanner_signatures
    (fold_left
       (λ scanner_object format_specification,
          fold_left
            (λ scanner_object signature,
               let '(pattern_offset, flags) :=
                 scanner_offset (offset signature) in
               add_signature scanner_object (identifier signature)
                 pattern_offset (pattern signature) flags)
            (signatures format_specification) scanner_object)
       specs scanner_object)
  = scanner_signatures scanner_object
    ++ (specs ≫= λ format_specification,
          Spec.emitted_rule <$> signatures format_specification).
Proof.
  revert scanner_object. induction specs as [|fs specs IH]; intros sc; simpl.
  - by rewrite app_nil_r.
  - rewrite IH, GetScanner_signatures_loop. by rewrite <- app_assoc.
Qed.

(** C2: the scanner built by [GetScanner] holds one rule per signature of the
    store, and the rule of a signature has flag NO_OFFSET and the offset
    [None] when the signature has no offset, flag RELATIVE_FROM_END and the
    absolute value of the offset when the offset is negative, and flag
    RELATIVE_FROM_START and the offset itself otherwise. *)
Theorem GetScanner_offset_polarity (store : FormatSpecificationStore) :
  scanner_signatures (GetScanner store) = Spec.BuildScannerConfig store.
Proof.
  unfold GetScanner, Spec.BuildScannerConfig.
  by rewrite GetScanner_specifications_loop.
Qed.

Example GetScanner_sample :
  scanner_signatures (GetScanner Sample.store)
  = [ {| sig_identifier := "lnk:0"; sig_offset := Some 0;
         sig_pattern := "L"; sig_flags := RELATIVE_FROM_START |};
      {| sig_identifier := "lnk:1"; sig_offset := Some 10;
         sig_pattern := "F"; sig_flags := RELATIVE_FROM_START |};
      {| sig_identifier := "zip:0"; sig_offset := Some 4;
         sig_pattern := "PK"; sig_flags := RELATIVE_FROM_END |};
      {| sig_identifier := "zip:1"; sig_offset := None;
         sig_pattern := "PK"; sig_flags := NO_OFFSET |} ].
Proof. reflexivity. Qed.

(** ** The filter resolver *)

Lemma extend_extend active_list names1 names2 lists :
  extend active_list names2 (extend active_list names1 lists)
  = extend active_list (names1 ++ names2) lists.
Proof.
  destruct active_list, lists as [inc exc]; simpl; by rewrite <- app_assoc.
Qed.

(** One turn of the loop: an empty token is passed over, any other token
    appends its resolution to the list its marker selects. *)
Lemma filter_step_run presets lists token reg :
  filter_step presets lists token reg
  = (Return
       (if decide (Text.strip token = "") then lists
        else extend
               (if Spec.negated (Text.strip token) then excludes_list
                else includes_list)
               (Spec.resolve presets reg (Spec.token_name (Text.strip token)))
               lists),
     reg).
Proof.
  unfold filter_step. case_bool_decide as Hempty.
  { rewrite decide_True by done. reflexivity. }
  rewrite decide_False by done.
  unfold bind, get_parser_classes, Spec.resolve, Spec.token_name, Spec.negated.
  set (name := Text.lower _).
  destruct (reg !! name) as [parser_class|].
  - unfold append. destruct (SupportsPlugins parser_class).
    + by rewrite extend_extend.
    + reflexivity.
  - by case_bool_decide.
Qed.

Lemma GetFilterListsFromString_loop presets reg pieces inc exc :
  for_each pieces (filter_step presets) (inc, exc) reg
  = (Return
       (inc ++ (filter (λ token, Spec.negated token = false)
                  (filter (λ token, token ≠ "") (Text.strip <$> pieces))
                ≫= λ token, Spec.resolve presets reg (Spec.token_name token)),
        exc ++ (filter (λ token, Spec.negated token = true)
                  (filter (λ token, token ≠ "") (Text.strip <$> pieces))
                ≫= λ token, Spec.resolve presets reg (Spec.token_name token))),
     reg).
Proof.
  revert inc exc. induction pieces as [|piece pieces IH]; intros inc exc.
  - simpl. by rewrite !app_nil_r.
  - simpl for_each. unfold bind. rewrite filter_step_run.
    rewrite fmap_cons. case_decide as Hempty.
    + rewrite (filter_cons_False (λ token, token ≠ "")) by (by intros ?).
      apply IH.
    + rewrite (filter_cons_True (λ token, token ≠ "")) by done.
      destruct (Spec.negated (Text.strip piece)) eqn:Hneg; simpl extend.
      * rewrite IH.
        rewrite (filter_cons_False (λ token, Spec.negated token = false))
          by (by rewrite Hneg).
        rewrite (filter_cons_True (λ token, Spec.negated token = true))
          by done.
        by rewrite bind_cons, app_assoc.
      * rewrite IH.
        rewrite (filter_cons_True (λ token, Spec.negated token = false))
          by done.
        rewrite (filter_cons_False (λ token, Spec.negated token = true))
          by (by rewrite Hneg).
        by rewrite bind_cons, app_assoc.
Qed.

(** [GetFilterListsFromString] returns the two lists of section 4.2 and keeps
    the registry. *)
Lemma GetFilterListsFromString_run presets s reg :
  GetFilterListsFromString presets s reg
  = (Return (Spec.includes presets reg s, Spec.excludes presets reg s), reg).
Proof.
  unfold GetFilterListsFromString. by rewrite GetFilterListsFromString_loop.
Qed.

(** C4: [GetFilterListsFromString] never raises and returns, for the tokens
    left after trimming and dropping the empty ones, the resolution of each
    token in order, in the list its marker selects: the lower case name
    followed by its plugin names when the name is registered (plugin names
    only for a class that supports plugins), else the parser names of the
    preset category of that name, else the name itself. *)
Theorem GetFilterListsFromString_resolution
    (presets : Presets) (reg : gmap string ParserClass) :
  (∀ lists token,
      Text.strip token ≠ "" →
      let name := Spec.token_name (Text.strip token) in
      let active_list :=
        if Text.startswith "-" (Text.strip token) then excludes_list
        else includes_list in
      filter_step presets lists token reg
      = (Return
           (extend active_list
              match reg !! name with
              | Some parser_class =>
                  name :: (if SupportsPlugins parser_class
                           then GetPluginNames parser_class else [])
              | None =>
                  if bool_decide (name ∈ categories_keys presets)
                  then GetParsersFromCategory presets name
                  else [name]
              end
              lists),
         reg))
  ∧ (∀ s,
        GetFilterListsFromString presets s reg
        = (Return (Spec.includes presets reg s, Spec.excludes presets reg s),
           reg)).
Proof.
  split.
  - intros lists token Hempty name active_list.
    rewrite filter_step_run. by rewrite decide_False.
  - intros s. apply GetFilterListsFromString_run.
Qed.

Lemma GetFilterListsFromString_resolution_witness :
  filter_step Sample.presets (["foo"], ["bar"]) " -P " Sample.registry
  = (Return (["foo"], ["bar"; "p"; "a"; "b"]), Sample.registry)
  ∧ filter_step Sample.presets (["foo"], ["bar"]) "Browsers" Sample.registry
    = (Return (["foo"; "chrome"; "firefox"], ["bar"]), Sample.registry)
  ∧ filter_step Sample.presets (["foo"], ["bar"]) "-Later" Sample.registry
    = (Return (["foo"], ["bar"; "later"]), Sample.registry).
Proof.
  destruct (GetFilterListsFromString_resolution Sample.presets Sample.registry)
    as [Hstep _].
  split_and!.
  - apply (Hstep (["foo"], ["bar"]) " -P "). discriminate.
  - apply (Hstep (["foo"], ["bar"]) "Browsers"). discriminate.
  - apply (Hstep (["foo"], ["bar"]) "-Later"). discriminate.
Defined.

Example filter_lists_include_exclude :
  (GetFilterListsFromString Sample.presets "foo,-bar" Sample.registry).1
  = Return (["foo"], ["bar"]).
Proof. reflexivity. Qed.

Example filter_lists_plugins :
  (GetFilterListsFromString Sample.presets "p" Sample.registry).1
  = Return (["p"; "a"; "b"], []).
Proof. reflexivity. Qed.

Example filter_lists_preset :
  (GetFilterListsFromString Sample.presets "browsers" Sample.registry).1
  = Return (["chrome"; "firefox"], []).
Proof. reflexivity. Qed.

Example filter_lists_literal :
  (GetFilterListsFromString Sample.presets " No_Such , -PLASO" Sample.registry).1
  = Return (["no_such"], ["plaso"]).
Proof. reflexivity. Qed.

Example filter_lists_not_trimmed_twice :
  (GetFilterListsFromString Sample.presets "- Foo" Sample.registry).1
  = Return ([], [" foo"]).
Proof. reflexivity. Qed.

(** The name the resolver looks up for a token that is only the marker. *)
Lemma token_name_marker : Spec.token_name "-" = "".
Proof. reflexivity. Qed.

(** C9, as the code has it: a token that is only the negation marker, white
    space around it or not, is not dropped: [GetFilterListsFromString]
    appends to the excludes, between what the pieces before it and the pieces
    after it append, the resolution of the empty name, and nothing to the
    includes.  That resolution is the empty string (followed by the plugin
    names of a class that supports plugins) when a parser is registered
    under the empty name, else the parsers of the preset category of the
    empty name when there is one, else the empty string; so the empty string
    is in the excludes whenever it is a registered name or is no preset
    category. *)
Theorem GetFilterListsFromString_lone_marker_resolution
    (presets : Presets) (reg : gmap string ParserClass) (s token : string)
    (before after : list string) :
  Text.split "," s = before ++ token :: after →
  Text.strip token = "-" →
  let resolution :=
    match reg !! "" with
    | Some parser_class =>
        "" :: (if SupportsPlugins parser_class
               then GetPluginNames parser_class else [])
    | None =>
        if bool_decide ("" ∈ categories_keys presets)
        then GetParsersFromCategory presets ""
        else [""]
    end in
  ∃ includes1 excludes1 includes2 excludes2,
    for_each before (filter_step presets) ([], []) reg
    = (Return (includes1, excludes1), reg)
    ∧ for_each after (filter_step presets) ([], []) reg
      = (Return (includes2, excludes2), reg)
    ∧ GetFilterListsFromString presets s reg
      = (Return (includes1 ++ includes2,
                 excludes1 ++ resolution ++ excludes2),
         reg)
    ∧ ("" ∈ dom reg ∨ "" ∉ categories_keys presets →
       "" ∈ excludes1 ++ resolution ++ excludes2).
Proof.
  intros Hsplit Hstrip resolution.
  eexists _, _, _, _. split_and!.
  - apply GetFilterListsFromString_loop.
  - apply GetFilterListsFromString_loop.
  - unfold GetFilterListsFromString.
    rewrite Hsplit, GetFilterListsFromString_loop.
    rewrite fmap_app, fmap_cons, Hstrip.
    rewrite !filter_app.
    rewrite (filter_cons_True (λ token, token ≠ "")) by done.
    rewrite (filter_cons_False (λ token, Spec.negated token = false))
      by done.
    rewrite (filter_cons_True (λ token, Spec.negated token = true)) by done.
    rewrite !bind_app, bind_cons, token_name_marker.
    reflexivity.
  - intros Hempty. apply elem_of_app. right. apply elem_of_app. left.
    subst resolution. destruct (reg !! "") as [parser_class|] eqn:Hreg.
    + by left.
    + destruct Hempty as [Hin|Hout].
      * apply elem_of_dom in Hin as [parser_class Hin]. congruence.
      * rewrite bool_decide_eq_false_2 by done. by left.
Qed.

Lemma GetFilterListsFromString_lone_marker_resolution_witness :
  GetFilterListsFromString Sample.presets "foo, - ,-bar" Sample.registry
  = (Return (["foo"], ["" ; "bar"]), Sample.registry)
  ∧ "" ∈ ["" ; "bar"].
Proof.
  destruct (GetFilterListsFromString_lone_marker_resolution Sample.presets
              Sample.registry "foo, - ,-bar" " - " ["foo"] ["-bar"])
    as (includes1 & excludes1 & includes2 & excludes2
        & Hbefore & Hafter & Hrun & Hin).
  - reflexivity.
  - reflexivity.
  - injection Hbefore as <- <-. injection Hafter as <- <-.
    split; [exact Hrun|].
    apply Hin. right. simpl. by intros ?%list_elem_of_singleton.
Defined.

(** C9, as stated, fails: in a catalog with a category of the empty name,
    and no parser registered under that name, the lone marker appends the
    parsers of that category to the excludes, and not the empty string. *)
Lemma GetFilterListsFromString_lone_marker_empty_category :
  " - " ∈ Text.split "," "foo, - "
  ∧ Text.strip " - " = "-"
  ∧ GetFilterListsFromString Sample.odd_presets "foo, - " Sample.registry
    = (Return (["foo"], ["chrome"]), Sample.registry)
  ∧ "" ∉ ["chrome"].
Proof.
  split_and!.
  - right. left.
  - reflexivity.
  - reflexivity.
  - by intros ?%list_elem_of_singleton.
Qed.

(** ** The parser selector *)

Lemma truthy_list_Some {A} (l : list A) :
  truthy_list (Some l) = bool_decide (l ≠ []).
Proof. by destruct l. Qed.

Lemma filter_keeps_all {A} (P : A → Prop) `{!∀ x, Decision (P x)} (l : list A) :
  (∀ x, P x) → filter P l = l.
Proof.
  intros HP. induction l as [|x l IH]; [done|].
  rewrite filter_cons_True by done. by rewrite IH.
Qed.

(** The test of the loop of [GetParsers], in the words of section 4.3. *)
Lemma GetParsers_test includes excludes (name : string) :
  negb (truthy_list (Some excludes) && name_in name (Some excludes))
  && negb (truthy_list (Some includes) && negb (name_in name (Some includes)))
  ↔ (name ∉ excludes) ∧ (includes = [] ∨ name ∈ includes).
Proof.
  rewrite !truthy_list_Some. unfold name_in.
  rewrite andb_True, !negb_True, !andb_True, negb_True.
  rewrite !bool_decide_spec. split.
  - intros [Hex Hin]. split.
    + intros Hname. apply Hex. split; [|done].
      intros ->. by apply elem_of_nil in Hname.
    + destruct includes as [|i includes]; [by left|right].
      destruct (decide (name ∈ i :: includes)); [done|].
      exfalso. apply Hin. by split.
  - intros [Hex Hin]. split.
    + by intros [_ Hname].
    + intros [Hne Hname]. by destruct Hin.
Qed.

(** [GetParsers] yields the pairs of section 4.3 and keeps the registry. *)
Lemma GetParsers_run presets parser_filter_string reg :
  GetParsers presets parser_filter_string reg
  = (Return (Spec.SelectParsers presets reg parser_filter_string), reg).
Proof.
  unfold GetParsers, Spec.SelectParsers.
  destruct parser_filter_string as [[|c s]|].
  - unfold bind, ret, get_parser_classes. simpl.
    f_equal. f_equal. by apply filter_keeps_all.
  - unfold bind at 1 2. rewrite GetFilterListsFromString_run.
    unfold ret, bind, get_parser_classes. simpl. f_equal. f_equal.
    apply list_filter_iff. intros [name parser_class]. simpl.
    apply GetParsers_test.
  - unfold bind, ret, get_parser_classes. simpl.
    f_equal. f_equal. by apply filter_keeps_all.
Qed.

Lemma GetParsers_yields presets parser_filter_string reg parsers :
  GetParsers presets parser_filter_string reg = (Return parsers, reg) →
  parsers = Spec.SelectParsers presets reg parser_filter_string.
Proof. rewrite GetParsers_run. by intros [= ->]. Qed.

(** Every selected pair is a pair of the registry. *)
Lemma SelectParsers_registered presets reg parser_filter_string name parser_class :
  (name, parser_class) ∈ Spec.SelectParsers presets reg parser_filter_string →
  reg !! name = Some parser_class.
Proof.
  unfold Spec.SelectParsers.
  destruct parser_filter_string as [[|c s]|]; intros Hin.
  - by apply elem_of_map_to_list.
  - apply list_elem_of_filter in Hin as [_ Hin]. by apply elem_of_map_to_list.
  - by apply elem_of_map_to_list.
Qed.

(** C8: with an absent or empty filter string [GetParsers] yields the pairs
    of the registry and nothing else: as many pairs as the registry has
    entries, no pair twice, and a pair is yielded exactly when the registry
    maps its name to its class. *)
Theorem GetParsers_no_filter
    (presets : Presets) (reg : gmap string ParserClass) :
  ∃ parsers,
    GetParsers presets None reg = (Return parsers, reg)
    ∧ GetParsers presets (Some "") reg = (Return parsers, reg)
    ∧ length parsers = size reg
    ∧ NoDup parsers
    ∧ ∀ name parser_class,
        (name, parser_class) ∈ parsers ↔ reg !! name = Some parser_class.
Proof.
  exists (map_to_list reg). split_and!.
  - apply GetParsers_run.
  - apply GetParsers_run.
  - apply length_map_to_list.
  - apply NoDup_map_to_list.
  - intros name parser_class. apply elem_of_map_to_list.
Qed.

Lemma GetParsers_no_filter_witness :
  ∃ parsers,
    GetParsers Sample.presets None Sample.registry
    = (Return parsers, Sample.registry)
    ∧ length parsers = 5%nat
    ∧ ("zip", Sample.Zip) ∈ parsers.
Proof.
  destruct (GetParsers_no_filter Sample.presets Sample.registry)
    as (parsers & Hnone & _ & Hlen & _ & Hin).
  exists parsers. split_and!.
  - exact Hnone.
  - rewrite Hlen. reflexivity.
  - apply Hin. reflexivity.
Defined.

(** A name of the excludes is never yielded. *)
Lemma SelectParsers_excluded presets reg s name parser_class :
  name ∈ Spec.excludes presets reg s →
  (name, parser_class) ∉ Spec.SelectParsers presets reg (Some s).
Proof.
  intros Hex Hin. unfold Spec.SelectParsers in Hin.
  destruct s as [|c s].
  - by apply elem_of_nil in Hex.
  - apply list_elem_of_filter in Hin as [[Hnot _] _]. by apply Hnot.
Qed.

(** C5: a name that the filter string resolves into both the includes and
    the excludes is not yielded by [GetParsers]: the exclusion wins. *)
Theorem GetParsers_exclusion_wins
    (presets : Presets) (reg : gmap string ParserClass) (s : string)
    (includes excludes : list string) (name : string) :
  (GetFilterListsFromString presets s reg).1 = Return (includes, excludes) →
  name ∈ includes →
  name ∈ excludes →
  ∃ parsers,
    GetParsers presets (Some s) reg = (Return parsers, reg)
    ∧ ∀ parser_class, (name, parser_class) ∉ parsers.
Proof.
  intros Hlists _ Hex.
  rewrite GetFilterListsFromString_run in Hlists. simpl in Hlists.
  injection Hlists as <- <-.
  eexists. split; [apply GetParsers_run|].
  intros parser_class. by apply SelectParsers_excluded.
Qed.

Lemma GetParsers_exclusion_wins_witness :
  ∃ parsers,
    GetParsers Sample.presets (Some "foo,lnk,-FOO") Sample.registry
    = (Return parsers, Sample.registry)
    ∧ ∀ parser_class, ("foo", parser_class) ∉ parsers.
Proof.
  apply (GetParsers_exclusion_wins Sample.presets Sample.registry
           "foo,lnk,-FOO" ["foo"; "lnk"] ["foo"] "foo").
  - reflexivity.
  - by left.
  - by left.
Defined.

Example GetParsers_exclusion_sample :
  (GetParserNames Sample.presets (Some "foo,lnk,-FOO") Sample.registry).1
  = Return ["lnk"].
Proof. reflexivity. Qed.

(** ** The derived views *)

Lemma GetParserNames_loop (parsers : list (string * ParserClass)) names reg :
  for_each parsers
    (λ parser_names (item : string * ParserClass),
       ret (parser_names ++ [item.1])) names reg
  = (Return (names ++ parsers.*1), reg).
Proof.
  revert names. induction parsers as [|item parsers IH]; intros names; simpl.
  - by rewrite app_nil_r.
  - unfold bind, ret at 1. rewrite IH. by rewrite <- app_assoc.
Qed.

Lemma GetParserNames_run presets parser_filter_string reg :
  GetParserNames presets parser_filter_string reg
  = (Return (Spec.SelectParsers presets reg parser_filter_string).*1, reg).
Proof.
  unfold GetParserNames, bind. rewrite GetParsers_run.
  by rewrite GetParserNames_loop.
Qed.

Lemma GetParserObjects_keeps presets parser_filter_string reg :
  ∃ parser_objects,
    GetParserObjects presets parser_filter_string reg
    = (Return parser_objects, reg).
Proof.
  unfold GetParserObjects, bind. rewrite GetParsers_run.
  eexists. by apply for_each_pure with
    (f := λ parser_objects (item : string * ParserClass),
            <[item.1 := {| class_of := item.2 |}]> parser_objects).
Qed.

(** ** The specification store *)

Lemma GetSpecificationStore_loop (parsers : list (string * ParserClass))
    store remainder reg :
  for_each parsers
    (λ (state : FormatSpecificationStore * list string)
       (item : string * ParserClass),
       let '(specification_store, remainder_list) := state in
       match GetFormatSpecification item.2 with
       | Some format_specification =>
           ret (AddSpecification specification_store format_specification,
                remainder_list)
       | None => ret (specification_store, remainder_list ++ [item.1])
       end)
    (store, remainder) reg
  = (Return
       ({| specifications :=
             specifications store
             ++ omap (λ item, GetFormatSpecification item.2) parsers |},
        remainder
        ++ (filter (λ item, GetFormatSpecification item.2 = None) parsers).*1),
     reg).
Proof.
  revert store remainder.
  induction parsers as [|[name parser_class] parsers IH];
    intros store remainder; simpl for_each.
  - simpl. rewrite !app_nil_r. by destruct store.
  - unfold bind. simpl.
    destruct (GetFormatSpecification parser_class) as [fs|] eqn:Hfs.
    + unfold ret at 1. rewrite IH. simpl.
      rewrite filter_cons_False by (simpl; by rewrite Hfs).
      by rewrite <- app_assoc.
    + unfold ret at 1. rewrite IH. simpl.
      rewrite filter_cons_True by done.
      rewrite fmap_cons. simpl. by rewrite <- app_assoc.
Qed.

(** [GetSpecificationStore]: the store holds the format specification of
    every selected parser that has one, the remainder the names of the
    others; the registry is kept. *)
Lemma GetSpecificationStore_run presets parser_filter_string reg :
  let parsers := Spec.SelectParsers presets reg parser_filter_string in
  GetSpecificationStore presets parser_filter_string reg
  = (Return
       ({| specifications :=
             omap (λ item, GetFormatSpecification item.2) parsers |},
        (filter (λ item, GetFormatSpecification item.2 = None) parsers).*1),
     reg).
Proof.
  intros parsers. unfold GetSpecificationStore, bind.
  rewrite GetParsers_run. by rewrite GetSpecificationStore_loop.
Qed.

(** C1, as the code has it: [GetSpecificationStore] adds the format
    specification of every selected parser that has one, whatever the number
    of its signatures, and nothing else: the store holds exactly the format
    specifications that the selected parsers return. *)
Theorem GetSpecificationStore_adds_present_specifications
    (presets : Presets) (parser_filter_string : option string)
    (reg : gmap string ParserClass) :
  ∃ parsers store remainder,
    GetParsers presets parser_filter_string reg = (Return parsers, reg)
    ∧ GetSpecificationStore presets parser_filter_string reg
      = (Return (store, remainder), reg)
    ∧ specifications store
      = omap (λ item, GetFormatSpecification item.2) parsers
    ∧ ∀ format_specification,
        format_specification ∈ specifications store
        ↔ ∃ name parser_class,
            (name, parser_class) ∈ parsers
            ∧ GetFormatSpecification parser_class = Some format_specification.
Proof.
  eexists _, _, _. split_and!.
  - apply GetParsers_run.
  - apply GetSpecificationStore_run.
  - reflexivity.
  - intros fs. simpl. rewrite list_elem_of_omap. split.
    + intros ([name parser_class] & Hin & Hfs). by exists name, parser_class.
    + intros (name & parser_class & Hin & Hfs). by exists (name, parser_class).
Qed.

Lemma GetSpecificationStore_adds_present_specifications_witness :
  ∃ parsers store remainder,
    GetParsers Sample.presets None Sample.bare_registry
    = (Return parsers, Sample.bare_registry)
    ∧ GetSpecificationStore Sample.presets None Sample.bare_registry
      = (Return (store, remainder), Sample.bare_registry)
    ∧ Sample.bare_specification ∈ specifications store.
Proof.
  destruct (GetSpecificationStore_adds_present_specifications Sample.presets
              None Sample.bare_registry)
    as (parsers & store & remainder & Hparsers & Hstore & _ & Hin).
  exists parsers, store, remainder. split_and!; [done|done|].
  apply Hin. exists "bare", Sample.Bare. split; [|reflexivity].
  apply GetParsers_yields in Hparsers as ->.
  apply elem_of_map_to_list. reflexivity.
Defined.

(** C1, as stated, fails: the parser [Bare] returns a format specification
    without signatures, and [GetSpecificationStore] adds it to the store. *)
Lemma GetSpecificationStore_adds_bare_specification :
  GetFormatSpecification Sample.Bare = Some Sample.bare_specification
  ∧ signatures Sample.bare_specification = []
  ∧ GetSpecificationStore Sample.presets None Sample.bare_registry
    = (Return ({| specifications := [Sample.bare_specification] |}, ["foo"]),
       Sample.bare_registry).
Proof. split_and!; reflexivity. Qed.

(** C3: every parser that [GetParsers] yields for a filter string ends up,
    in the result of [GetSpecificationStore] for that filter string, either
    in the store and not in the remainder, or in the remainder and not in the
    store. *)
Theorem GetSpecificationStore_partition
    (presets : Presets) (parser_filter_string : option string)
    (reg : gmap string ParserClass) :
  ∃ parsers store remainder,
    GetParsers presets parser_filter_string reg = (Return parsers, reg)
    ∧ GetSpecificationStore presets parser_filter_string reg
      = (Return (store, remainder), reg)
    ∧ ∀ name parser_class,
        (name, parser_class) ∈ parsers →
        (Spec.in_store parser_class store ∧ name ∉ remainder)
        ∨ (¬ Spec.in_store parser_class store ∧ name ∈ remainder).
Proof.
  eexists _, _, _. split_and!.
  - apply GetParsers_run.
  - apply GetSpecificationStore_run.
  - intros name parser_class Hin.
    destruct (GetFormatSpecification parser_class) as [fs|] eqn:Hfs.
    + left. split.
      * exists fs. split; [done|]. simpl. apply list_elem_of_omap.
        by exists (name, parser_class).
      * intros ([name' parser_class'] & Hname & Hin')%list_elem_of_fmap.
        simpl in Hname. subst name'.
        apply list_elem_of_filter in Hin' as [Hnone Hin']. simpl in Hnone.
        apply SelectParsers_registered in Hin, Hin'. congruence.
    + right. split.
      * intros (fs & Hsome & _). congruence.
      * apply list_elem_of_fmap. exists (name, parser_class).
        split; [done|]. by apply list_elem_of_filter.
Qed.

Lemma GetSpecificationStore_partition_witness :
  ∃ parsers store remainder,
    GetParsers Sample.presets (Some "-bar") Sample.registry
    = (Return parsers, Sample.registry)
    ∧ GetSpecificationStore Sample.presets (Some "-bar") Sample.registry
      = (Return (store, remainder), Sample.registry)
    ∧ ((Spec.in_store Sample.Zip store ∧ "zip" ∉ remainder)
       ∨ (¬ Spec.in_store Sample.Zip store ∧ "zip" ∈ remainder))
    ∧ ((Spec.in_store Sample.P store ∧ "p" ∉ remainder)
       ∨ (¬ Spec.in_store Sample.P store ∧ "p" ∈ remainder)).
Proof.
  destruct (GetSpecificationStore_partition Sample.presets (Some "-bar")
              Sample.registry)
    as (parsers & store & remainder & Hparsers & Hstore & Hpart).
  exists parsers, store, remainder. split_and!; [done|done| |].
  - apply Hpart. apply GetParsers_yields in Hparsers as ->.
    apply list_elem_of_filter. split.
    + split; [by intros ?%list_elem_of_singleton|by left].
    + apply elem_of_map_to_list. reflexivity.
  - apply Hpart. apply GetParsers_yields in Hparsers as ->.
    apply list_elem_of_filter. split.
    + split; [by intros ?%list_elem_of_singleton|by left].
    + apply elem_of_map_to_list. reflexivity.
Defined.

Example GetSpecificationStore_sample :
  (GetSpecificationStore Sample.presets (Some "-bar") Sample.registry).1
  = Return ({| specifications :=
                 [Sample.zip_specification; Sample.lnk_specification] |},
            ["foo"; "p"]).
Proof. reflexivity. Qed.

(** ** What changes the registry *)

Lemma RegisterParsers_grows parser_classes reg :
  reg ⊆ (RegisterParsers parser_classes reg).2.
Proof.
  revert reg. induction parser_classes as [|p l IH]; intros reg.
  - done.
  - rewrite RegisterParsers_cons. unfold bind.
    destruct (decide (Text.lower (NAME p) ∈ dom reg)) as [Hin|Hout].
    + by rewrite RegisterParser_taken.
    + rewrite RegisterParser_fresh by done.
      etrans; [|apply IH]. apply insert_subseteq. by apply not_elem_of_dom.
Qed.

(** C10: the read methods [GetFilterListsFromString], [GetParsers],
    [GetParserNames], [GetParserObjects], [GetSpecificationStore] and
    [GetWindowsRegistryPlugins] return with the registry they were called on;
    [RegisterParser] and [RegisterParsers] of a class with a fresh name and
    [DeregisterParser] of a registered class return with another one. *)
Theorem read_methods_keep_registry
    (presets : Presets) (reg : gmap string ParserClass) :
  (∀ s, (GetFilterListsFromString presets s reg).2 = reg)
  ∧ (∀ parser_filter_string,
        (GetParsers presets parser_filter_string reg).2 = reg
        ∧ (GetParserNames presets parser_filter_string reg).2 = reg
        ∧ (GetParserObjects presets parser_filter_string reg).2 = reg
        ∧ (GetSpecificationStore presets parser_filter_string reg).2 = reg)
  ∧ (GetWindowsRegistryPlugins reg).2 = reg
  ∧ (∀ parser_class parser_classes,
        Text.lower (NAME parser_class) ∉ dom reg →
        (RegisterParser parser_class reg).2 ≠ reg
        ∧ (RegisterParsers (parser_class :: parser_classes) reg).2 ≠ reg)
  ∧ (∀ parser_class,
        Text.lower (NAME parser_class) ∈ dom reg →
        (DeregisterParser parser_class reg).2 ≠ reg).
Proof.
  split_and!.
  - intros s. by rewrite GetFilterListsFromString_run.
  - intros f. split_and!.
    + by rewrite GetParsers_run.
    + by rewrite GetParserNames_run.
    + by destruct (GetParserObjects_keeps presets f reg) as [objects ->].
    + by rewrite GetSpecificationStore_run.
  - unfold GetWindowsRegistryPlugins, bind, get_parser_classes.
    by destruct (reg !! "winreg").
  - intros p l Hfresh. split.
    + rewrite RegisterParser_fresh by done. simpl. intros Heq.
      apply Hfresh. rewrite <- Heq. rewrite dom_insert_L. set_solver.
    + intros Heq.
      pose proof (RegisterParsers_grows l
                    (<[Text.lower (NAME p) := p]> reg)) as Hsub.
      rewrite RegisterParsers_cons in Heq. unfold bind in Heq.
      rewrite RegisterParser_fresh in Heq by done.
      rewrite Heq in Hsub. apply Hfresh, elem_of_dom. exists p.
      eapply lookup_weaken; [|exact Hsub]. apply lookup_insert_eq.
  - intros p Hin. rewrite DeregisterParser_present by done. simpl.
    intros Heq. rewrite <- Heq in Hin. rewrite dom_delete_L in Hin.
    apply elem_of_difference in Hin as [_ Hnot].
    apply Hnot. by apply elem_of_singleton.
Qed.

Lemma read_methods_keep_registry_witness :
  (RegisterParser Sample.Winreg Sample.registry).2 ≠ Sample.registry
  ∧ (RegisterParsers [Sample.Winreg; Sample.FOO] Sample.registry).2
    ≠ Sample.registry
  ∧ (DeregisterParser Sample.FOO Sample.registry).2 ≠ Sample.registry
  ∧ (GetParserNames Sample.presets (Some "foo,-bar") Sample.registry).2
    = Sample.registry.
Proof.
  destruct (read_methods_keep_registry Sample.presets Sample.registry)
    as (_ & Hread & _ & Hregister & Hderegister).
  split_and!.
  - apply (Hregister Sample.Winreg []). by apply not_elem_of_dom.
  - apply (Hregister Sample.Winreg [Sample.FOO]). by apply not_elem_of_dom.
  - apply Hderegister. apply elem_of_dom. by eexists.
  - apply Hread.
Defined.

(** * Further properties of the manager *)

(** ** Registration and deregistration *)

Lemma RegisterParsers_nil reg : RegisterParsers [] reg = (Return tt, reg).
Proof. reflexivity. Qed.

(** X1: registering a class under a fresh name and deregistering it again
    gives back the registry as it was, without raising. *)
Theorem RegisterParser_DeregisterParser_round_trip
    (parser_class : ParserClass) (reg : gmap string ParserClass) :
  Text.lower (NAME parser_class) ∉ dom reg →
  (RegisterParser parser_class ;; DeregisterParser parser_class) reg
  = (Return tt, reg).
Proof.
  intros Hfresh. unfold bind. rewrite RegisterParser_fresh by done.
  rewrite DeregisterParser_present.
  - rewrite delete_insert_eq, delete_id; [done|]. by apply not_elem_of_dom.
  - rewrite dom_insert_L. apply elem_of_union_l. by apply elem_of_singleton.
Qed.

Lemma RegisterParser_DeregisterParser_round_trip_witness :
  (RegisterParser Sample.WinReg ;; DeregisterParser Sample.WinReg)
    Sample.registry
  = (Return tt, Sample.registry).
Proof.
  apply (RegisterParser_DeregisterParser_round_trip Sample.WinReg
           Sample.registry).
  by apply not_elem_of_dom.
Defined.

(** X2: deregistering a registered class and registering it again gives back
    the registry as it was, without raising. *)
Theorem DeregisterParser_RegisterParser_round_trip
    (parser_class : ParserClass) (reg : gmap string ParserClass) :
  reg !! Text.lower (NAME parser_class) = Some parser_class →
  (DeregisterParser parser_class ;; RegisterParser parser_class) reg
  = (Return tt, reg).
Proof.
  intros Hreg. unfold bind. rewrite DeregisterParser_present.
  - rewrite RegisterParser_fresh.
    + rewrite insert_delete_eq. by rewrite insert_id.
    + rewrite dom_delete_L. intros [_ Hnot]%elem_of_difference.
      apply Hnot. by apply elem_of_singleton.
  - apply elem_of_dom. by eexists.
Qed.

Lemma DeregisterParser_RegisterParser_round_trip_witness :
  (DeregisterParser Sample.Zip ;; RegisterParser Sample.Zip) Sample.registry
  = (Return tt, Sample.registry).
Proof.
  apply (DeregisterParser_RegisterParser_round_trip Sample.Zip Sample.registry).
  reflexivity.
Defined.

(** X3: [DeregisterParser] goes by the lower case name alone: it removes the
    entry of that name whatever class is stored there, keeps every other
    entry, and the registry has one entry less. *)
Theorem DeregisterParser_removes_by_name
    (parser_class : ParserClass) (reg : gmap string ParserClass) :
  Text.lower (NAME parser_class) ∈ dom reg →
  ∃ reg',
    DeregisterParser parser_class reg = (Return tt, reg')
    ∧ reg' !! Text.lower (NAME parser_class) = None
    ∧ (∀ name, name ≠ Text.lower (NAME parser_class) →
               reg' !! name = reg !! name)
    ∧ S (size reg') = size reg.
Proof.
  intros Hin. eexists. split; [by apply DeregisterParser_present|].
  split_and!.
  - apply lookup_delete_eq.
  - intros name Hne. by apply lookup_delete_ne.
  - apply elem_of_dom in Hin as [stored Hstored].
    erewrite map_size_delete_Some by done.
    assert (size reg ≠ 0%nat); [|lia].
    intros Hzero%map_size_empty_inv. subst reg. by rewrite lookup_empty in Hstored.
Qed.

Lemma DeregisterParser_removes_by_name_witness :
  ∃ reg',
    DeregisterParser Sample.FOO Sample.registry = (Return tt, reg')
    ∧ reg' !! "foo" = None
    ∧ reg' !! "zip" = Some Sample.Zip
    ∧ S (size reg') = 5%nat.
Proof.
  destruct (DeregisterParser_removes_by_name Sample.FOO Sample.registry)
    as (reg' & Hrun & Hgone & Hkeep & Hsize).
  - apply elem_of_dom. by eexists.
  - exists reg'. split_and!; [done|done| |].
    + by rewrite (Hkeep "zip").
    + by rewrite Hsize.
Defined.

(** A successful bulk registration shows that the names were fresh and
    pairwise different. *)
Lemma RegisterParsers_success_fresh parser_classes reg reg' :
  RegisterParsers parser_classes reg = (Return tt, reg') →
  NoDup ((λ p, Text.lower (NAME p)) <$> parser_classes)
  ∧ (∀ p, p ∈ parser_classes → Text.lower (NAME p) ∉ dom reg).
Proof.
  revert reg. induction parser_classes as [|p l IH]; intros reg Hrun.
  - split; [constructor|]. intros p Hp. by apply elem_of_nil in Hp.
  - rewrite RegisterParsers_cons in Hrun. unfold bind in Hrun.
    destruct (decide (Text.lower (NAME p) ∈ dom reg)) as [Hin|Hout].
    { rewrite RegisterParser_taken in Hrun by done. discriminate. }
    rewrite RegisterParser_fresh in Hrun by done.
    destruct (IH _ Hrun) as [Hnd Hfresh]. split.
    + rewrite fmap_cons. apply NoDup_cons. split; [|done].
      intros (q & Heq & Hq)%list_elem_of_fmap.
      apply (Hfresh q Hq). rewrite dom_insert_L, <- Heq.
      apply elem_of_union_l. by apply elem_of_singleton.
    + intros q [->|Hq]%elem_of_cons; [done|].
      intros Hqin. apply (Hfresh q Hq). rewrite dom_insert_L.
      by apply elem_of_union_r.
Qed.

(** X4: [RegisterParsers] returns without raising exactly when the lower case
    names of the classes are pairwise different and none of them is
    registered yet. *)
Theorem RegisterParsers_succeeds_iff
    (parser_classes : list ParserClass) (reg : gmap string ParserClass) :
  (∃ reg', RegisterParsers parser_classes reg = (Return tt, reg'))
  ↔ NoDup ((λ p, Text.lower (NAME p)) <$> parser_classes)
    ∧ (∀ p, p ∈ parser_classes → Text.lower (NAME p) ∉ dom reg).
Proof.
  split.
  - intros [reg' Hrun]. by eapply RegisterParsers_success_fresh.
  - intros [Hnd Hfresh]. by apply RegisterParsers_all_fresh.
Qed.

Lemma RegisterParsers_succeeds_iff_witness :
  (∃ reg', RegisterParsers [Sample.WinReg; Sample.Bare] Sample.registry
           = (Return tt, reg'))
  ∧ ¬ NoDup ((λ p, Text.lower (NAME p)) <$> [Sample.Winreg; Sample.WinReg]).
Proof.
  split.
  - apply (RegisterParsers_succeeds_iff [Sample.WinReg; Sample.Bare]
             Sample.registry).
    split.
    + apply NoDup_cons. split; [by intros ?%list_elem_of_singleton|].
      apply NoDup_singleton.
    + intros p [->|[->|[]%elem_of_nil]%elem_of_cons]%elem_of_cons;
        by apply not_elem_of_dom.
  - intros Hnd.
    assert (∃ reg', RegisterParsers [Sample.Winreg; Sample.WinReg] ∅
                    = (Return tt, reg')) as [reg' Hrun].
    { apply (RegisterParsers_succeeds_iff [Sample.Winreg; Sample.WinReg] ∅).
      split; [done|]. intros p _. by rewrite dom_empty_L. }
    discriminate Hrun.
Defined.

(** X5: a bulk registration that returns has added one entry per class: the
    size of the registry grows by the length of the list and the names of the
    registry are the old names and the lower case names of the classes. *)
Theorem RegisterParsers_success_adds
    (parser_classes : list ParserClass) (reg reg' : gmap string ParserClass) :
  RegisterParsers parser_classes reg = (Return tt, reg') →
  size reg' = (size reg + length parser_classes)%nat
  ∧ dom reg'
    = dom reg ∪ list_to_set ((λ p, Text.lower (NAME p)) <$> parser_classes).
Proof.
  revert reg. induction parser_classes as [|p l IH]; intros reg Hrun.
  - injection Hrun as <-. simpl. split; [lia|].
    by rewrite union_empty_r_L.
  - rewrite RegisterParsers_cons in Hrun. unfold bind in Hrun.
    destruct (decide (Text.lower (NAME p) ∈ dom reg)) as [Hin|Hout].
    { rewrite RegisterParser_taken in Hrun by done. discriminate. }
    rewrite RegisterParser_fresh in Hrun by done.
    destruct (IH _ Hrun) as [Hsize Hdom]. split.
    + rewrite Hsize, map_size_insert_None by (by apply not_elem_of_dom).
      simpl. lia.
    + rewrite Hdom, dom_insert_L, fmap_cons. simpl.
      rewrite (union_comm_L {[Text.lower (NAME p)]} (dom reg)).
      by rewrite <- union_assoc_L.
Qed.

Lemma RegisterParsers_success_adds_witness :
  size (<["bare" := Sample.Bare]> (<["winreg" := Sample.WinReg]>
          Sample.registry))
  = (size Sample.registry + 2)%nat.
Proof.
  apply (RegisterParsers_success_adds [Sample.WinReg; Sample.Bare]
           Sample.registry).
  reflexivity.
Defined.

(** X6: [RegisterParsers] never removes or replaces an entry of the registry,
    whether it returns or raises. *)
Theorem RegisterParsers_keeps_entries
    (parser_classes : list ParserClass) (reg : gmap string ParserClass)
    (name : string) (parser_class : ParserClass) :
  reg !! name = Some parser_class →
  (RegisterParsers parser_classes reg).2 !! name = Some parser_class.
Proof.
  intros Hreg. eapply lookup_weaken; [exact Hreg|].
  apply RegisterParsers_grows.
Qed.

Lemma RegisterParsers_keeps_entries_witness :
  (RegisterParsers [Sample.WinReg; Sample.FOO; Sample.Bare] Sample.registry).2
    !! "foo"
  = Some Sample.Foo.
Proof.
  apply (RegisterParsers_keeps_entries [Sample.WinReg; Sample.FOO; Sample.Bare]
           Sample.registry "foo" Sample.Foo).
  reflexivity.
Defined.

(** ** Selection *)

Lemma SelectParsers_elem presets reg s name parser_class :
  (name, parser_class) ∈ Spec.SelectParsers presets reg (Some s)
  ↔ reg !! name = Some parser_class
    ∧ (name ∉ Spec.excludes presets reg s)
    ∧ (Spec.includes presets reg s = [] ∨ name ∈ Spec.includes presets reg s).
Proof.
  unfold Spec.SelectParsers. destruct s as [|c s].
  - rewrite elem_of_map_to_list. split; [|by intros [? _]].
    intros Hreg. split_and!; [done| |by left].
    intros Hin. by apply elem_of_nil in Hin.
  - rewrite list_elem_of_filter, elem_of_map_to_list. simpl. tauto.
Qed.

Lemma NoDup_fst_filter {A B} (P : A * B → Prop) `{!∀ x, Decision (P x)}
    (l : list (A * B)) :
  NoDup l.*1 → NoDup (filter P l).*1.
Proof.
  induction l as [|[a b] l IH]; [done|].
  rewrite fmap_cons. intros [Ha Hnd]%NoDup_cons.
  rewrite filter_cons. case_decide; [|by apply IH].
  rewrite fmap_cons. apply NoDup_cons. split; [|by apply IH].
  intros ([a' b'] & Heq & Hin)%list_elem_of_fmap. simpl in *. subst a'.
  apply list_elem_of_filter in Hin as [_ Hin].
  apply Ha. apply list_elem_of_fmap. by exists (a, b').
Qed.

Lemma SelectParsers_NoDup presets reg parser_filter_string :
  NoDup (Spec.SelectParsers presets reg parser_filter_string).*1.
Proof.
  unfold Spec.SelectParsers.
  destruct parser_filter_string as [[|c s]|];
    [apply NoDup_fst_map_to_list| |apply NoDup_fst_map_to_list].
  apply NoDup_fst_filter, NoDup_fst_map_to_list.
Qed.

(** X7: for a filter string that [GetFilterListsFromString] resolves to
    [includes] and [excludes], [GetParsers] yields no name twice and yields a
    pair exactly when the registry holds it, its name is not in [excludes]
    and, unless [includes] is empty, is in [includes]. *)
Theorem GetParsers_selection
    (presets : Presets) (reg : gmap string ParserClass) (s : string)
    (includes excludes : list string) :
  (GetFilterListsFromString presets s reg).1 = Return (includes, excludes) →
  ∃ parsers,
    GetParsers presets (Some s) reg = (Return parsers, reg)
    ∧ NoDup parsers.*1
    ∧ ∀ name parser_class,
        (name, parser_class) ∈ parsers
        ↔ reg !! name = Some parser_class
          ∧ (name ∉ excludes)
          ∧ (includes = [] ∨ name ∈ includes).
Proof.
  rewrite GetFilterListsFromString_run. simpl. intros [= <- <-].
  eexists. split_and!.
  - apply GetParsers_run.
  - apply SelectParsers_NoDup.
  - intros name parser_class. apply SelectParsers_elem.
Qed.

Lemma GetParsers_selection_witness :
  ∃ parsers,
    GetParsers Sample.presets (Some "lnk, ZIP ,-bar,nothing") Sample.registry
    = (Return parsers, Sample.registry)
    ∧ ("zip", Sample.Zip) ∈ parsers
    ∧ ("foo", Sample.Foo) ∉ parsers.
Proof.
  destruct (GetParsers_selection Sample.presets Sample.registry
              "lnk, ZIP ,-bar,nothing" ["lnk"; "zip"; "nothing"] ["bar"])
    as (parsers & Hrun & _ & Hin); [reflexivity|].
  exists parsers. split_and!; [done| |].
  - apply Hin. split_and!; [reflexivity| |].
    + by intros ?%list_elem_of_singleton.
    + right. right. left.
  - intros (_ & _ & [Hempty|Hfoo])%Hin; [discriminate|].
    repeat (apply elem_of_cons in Hfoo as [Hfoo|Hfoo]; [discriminate|]).
    by apply elem_of_nil in Hfoo.
Defined.

(** X8: a filter string whose includes name no registered parser selects
    nothing: an unknown name in the includes is no error, it yields the empty
    selection. *)
Theorem GetParsers_unknown_includes
    (presets : Presets) (reg : gmap string ParserClass) (s : string)
    (includes excludes : list string) :
  (GetFilterListsFromString presets s reg).1 = Return (includes, excludes) →
  includes ≠ [] →
  (∀ name, name ∈ includes → name ∉ dom reg) →
  GetParsers presets (Some s) reg = (Return [], reg).
Proof.
  rewrite GetFilterListsFromString_run. simpl. intros [= <- <-] Hne Hunknown.
  rewrite GetParsers_run. f_equal. f_equal.
  destruct (Spec.SelectParsers presets reg (Some s))
    as [|[name parser_class] l] eqn:Hsel; [done|].
  assert ((name, parser_class) ∈ Spec.SelectParsers presets reg (Some s))
    as (Hreg & _ & [Hempty|Hin])%SelectParsers_elem
    by (rewrite Hsel; left).
  - done.
  - exfalso. apply (Hunknown name Hin). apply elem_of_dom. by eexists.
Qed.

Lemma GetParsers_unknown_includes_witness :
  GetParsers Sample.presets (Some "lnkk") Sample.registry
  = (Return [], Sample.registry).
Proof.
  apply (GetParsers_unknown_includes Sample.presets Sample.registry "lnkk"
           ["lnkk"] []).
  - reflexivity.
  - discriminate.
  - intros name ->%list_elem_of_singleton. by apply not_elem_of_dom.
Defined.

(** X9: a filter string that is not empty but whose pieces are all blank
    (commas and white space only) resolves to two empty lists, and
    [GetParsers] then yields the whole registry, as for no filter string. *)
Theorem GetParsers_blank_filter
    (presets : Presets) (reg : gmap string ParserClass) (s : string) :
  (∀ token, token ∈ Text.split "," s → Text.strip token = "") →
  GetFilterListsFromString presets s reg = (Return ([], []), reg)
  ∧ GetParsers presets (Some s) reg = (Return (map_to_list reg), reg).
Proof.
  intros Hblank.
  assert (Spec.tokens s = []) as Htokens.
  { unfold Spec.tokens.
    destruct (filter _ _) as [|token l] eqn:Hfilter; [done|].
    assert (token ∈ filter (λ token, token ≠ "")
                      (Text.strip <$> Text.split "," s))
      as [Hne Hin]%list_elem_of_filter by (rewrite Hfilter; left).
    apply list_elem_of_fmap in Hin as (piece & -> & Hpiece).
    by rewrite Hblank in Hne. }
  assert (Spec.includes presets reg s = []) as Hinc
    by (unfold Spec.includes; by rewrite Htokens).
  assert (Spec.excludes presets reg s = []) as Hexc
    by (unfold Spec.excludes; by rewrite Htokens).
  split.
  - rewrite GetFilterListsFromString_run. by rewrite Hinc, Hexc.
  - rewrite GetParsers_run. f_equal. f_equal.
    unfold Spec.SelectParsers. destruct s as [|c s]; [done|].
    apply filter_keeps_all. intros item. rewrite Hinc, Hexc.
    split; [|by left]. intros Hin. by apply elem_of_nil in Hin.
Qed.

Lemma GetParsers_blank_filter_witness :
  GetFilterListsFromString Sample.presets " , ," Sample.registry
  = (Return ([], []), Sample.registry)
  ∧ GetParsers Sample.presets (Some " , ,") Sample.registry
    = (Return (map_to_list Sample.registry), Sample.registry).
Proof.
  apply (GetParsers_blank_filter Sample.presets Sample.registry " , ,").
  intros token Hin. vm_compute in Hin.
  repeat (apply elem_of_cons in Hin as [->|Hin]; [reflexivity|]).
  by apply elem_of_nil in Hin.
Defined.

(** X10: a token that is not blank, has no negation marker and names a
    registered parser, in any case and with white space around it, selects
    that parser unless its name is in the excludes.  (A blank token is
    passed over before any lookup, also when a parser is registered under
    the empty name.) *)
Theorem GetParsers_named_parser
    (presets : Presets) (reg : gmap string ParserClass) (s token : string)
    (includes excludes : list string) (parser_class : ParserClass) :
  (GetFilterListsFromString presets s reg).1 = Return (includes, excludes) →
  token ∈ Text.split "," s →
  Text.strip token ≠ "" →
  Text.startswith "-" (Text.strip token) = false →
  reg !! Text.lower (Text.strip token) = Some parser_class →
  Text.lower (Text.strip token) ∉ excludes →
  ∃ parsers,
    GetParsers presets (Some s) reg = (Return parsers, reg)
    ∧ (Text.lower (Text.strip token), parser_class) ∈ parsers.
Proof.
  rewrite GetFilterListsFromString_run. simpl.
  intros [= <- <-] Htoken Hne Hmarker Hreg Hex.
  eexists. split; [apply GetParsers_run|].
  apply SelectParsers_elem. split_and!; [done|done|right].
  unfold Spec.includes, Spec.tokens.
  apply list_elem_of_bind. exists (Text.strip token). split.
  - unfold Spec.token_name, Spec.negated, Spec.resolve.
    rewrite Hmarker, Hreg. by left.
  - apply list_elem_of_filter. split; [done|].
    apply list_elem_of_filter. split; [done|].
    by apply list_elem_of_fmap_2.
Qed.

Lemma GetParsers_named_parser_witness :
  ∃ parsers,
    GetParsers Sample.presets (Some "lnk, ZiP ,-bar") Sample.registry
    = (Return parsers, Sample.registry)
    ∧ ("zip", Sample.Zip) ∈ parsers.
Proof.
  apply (GetParsers_named_parser Sample.presets Sample.registry
           "lnk, ZiP ,-bar" " ZiP " ["lnk"; "zip"] ["bar"] Sample.Zip).
  - reflexivity.
  - vm_compute. right. left.
  - discriminate.
  - reflexivity.
  - reflexivity.
  - by intros ?%list_elem_of_singleton.
Defined.

(** A blank token is passed over even when its trimmed text is a registered
    name: the parser registered under the empty name is not selected by it. *)
Example blank_token_selects_nothing :
  (GetParserNames Sample.presets (Some " ,foo") Sample.nameless_registry).1
  = Return ["foo"].
Proof. reflexivity. Qed.

(** X11: registering a class under a fresh name adds its pair to what
    [GetParsers] yields without a filter string and changes nothing else of
    the selection (the order of the pairs apart). *)
Theorem RegisterParser_then_GetParsers
    (presets : Presets) (parser_class : ParserClass)
    (reg : gmap string ParserClass) :
  Text.lower (NAME parser_class) ∉ dom reg →
  ∃ parsers reg',
    (RegisterParser parser_class ;; GetParsers presets None) reg
    = (Return parsers, reg')
    ∧ parsers
      ≡ₚ (Text.lower (NAME parser_class), parser_class) :: map_to_list reg.
Proof.
  intros Hfresh. eexists _, _. unfold bind.
  rewrite RegisterParser_fresh by done. rewrite GetParsers_run.
  split; [reflexivity|]. simpl.
  apply map_to_list_insert. by apply not_elem_of_dom.
Qed.

Lemma RegisterParser_then_GetParsers_witness :
  ∃ parsers reg',
    (RegisterParser Sample.WinReg ;; GetParsers Sample.presets None)
      Sample.registry
    = (Return parsers, reg')
    ∧ parsers ≡ₚ ("winreg", Sample.WinReg) :: map_to_list Sample.registry.
Proof.
  apply (RegisterParser_then_GetParsers Sample.presets Sample.WinReg
           Sample.registry).
  by apply not_elem_of_dom.
Defined.

(** ** The derived views *)

(** X12: [GetParserNames] returns the names of the pairs that [GetParsers]
    yields for the same filter string, in the same order; no name occurs
    twice and every name is a key of the registry. *)
Theorem GetParserNames_of_GetParsers
    (presets : Presets) (parser_filter_string : option string)
    (reg : gmap string ParserClass) :
  ∃ parsers,
    GetParsers presets parser_filter_string reg = (Return parsers, reg)
    ∧ GetParserNames presets parser_filter_string reg
      = (Return parsers.*1, reg)
    ∧ NoDup parsers.*1
    ∧ ∀ name, name ∈ parsers.*1 → name ∈ dom reg.
Proof.
  eexists. split_and!.
  - apply GetParsers_run.
  - apply GetParserNames_run.
  - apply SelectParsers_NoDup.
  - intros name ([name' parser_class] & -> & Hin)%list_elem_of_fmap.
    apply SelectParsers_registered in Hin. apply elem_of_dom. by eexists.
Qed.

Lemma GetParserNames_of_GetParsers_witness :
  ∃ parsers : list (string * ParserClass),
    GetParserNames Sample.presets (Some "-bar,-p") Sample.registry
    = (Return parsers.*1, Sample.registry)
    ∧ "zip" ∈ parsers.*1
    ∧ "zip" ∈ dom Sample.registry.
Proof.
  destruct (GetParserNames_of_GetParsers Sample.presets (Some "-bar,-p")
              Sample.registry)
    as (parsers & Hparsers & Hnames & _ & Hkeys).
  assert ("zip" ∈ parsers.*1) as Hzip.
  { apply GetParsers_yields in Hparsers as ->.
    apply list_elem_of_fmap. exists ("zip", Sample.Zip).
    split; [reflexivity|].
    apply SelectParsers_elem. split_and!; [reflexivity| |left; reflexivity].
    intros Hex. vm_compute in Hex.
    repeat (apply elem_of_cons in Hex as [Hex|Hex]; [discriminate|]).
    by apply elem_of_nil in Hex. }
  exists parsers. split_and!; [exact Hnames|exact Hzip|].
  apply Hkeys. exact Hzip.
Defined.

(** X13: without a filter string [GetParserNames] returns exactly the keys of
    the registry, each once. *)
Theorem GetParserNames_all
    (presets : Presets) (reg : gmap string ParserClass) :
  ∃ names,
    GetParserNames presets None reg = (Return names, reg)
    ∧ NoDup names
    ∧ length names = size reg
    ∧ ∀ name, name ∈ names ↔ name ∈ dom reg.
Proof.
  eexists. split_and!.
  - apply GetParserNames_run.
  - apply NoDup_fst_map_to_list.
  - simpl. by rewrite length_fmap, length_map_to_list.
  - intros name. simpl. rewrite elem_of_dom, list_elem_of_fmap. split.
    + intros ([name' parser_class] & -> & Hin).
      apply elem_of_map_to_list in Hin. by eexists.
    + intros [parser_class Hreg]. exists (name, parser_class).
      split; [done|]. by apply elem_of_map_to_list.
Qed.

Lemma GetParserNames_all_witness :
  ∃ names,
    GetParserNames Sample.presets None Sample.registry
    = (Return names, Sample.registry)
    ∧ length names = 5%nat
    ∧ "lnk" ∈ names.
Proof.
  destruct (GetParserNames_all Sample.presets Sample.registry)
    as (names & Hrun & _ & Hlen & Hin).
  exists names. split_and!; [done|by rewrite Hlen|].
  apply Hin. apply elem_of_dom. by eexists.
Defined.

Lemma GetParserObjects_loop (parsers : list (string * ParserClass))
    (objects : gmap string ParserObject) name object :
  NoDup parsers.*1 →
  fold_left
    (λ parser_objects (item : string * ParserClass),
       <[item.1 := {| class_of := item.2 |}]> parser_objects)
    parsers objects !! name = Some object
  ↔ (∃ parser_class,
        (name, parser_class) ∈ parsers
        ∧ object = {| class_of := parser_class |})
    ∨ ((name ∉ parsers.*1) ∧ objects !! name = Some object).
Proof.
  revert objects.
  induction parsers as [|[name' parser_class'] parsers IH];
    intros objects Hnd.
  - simpl. split.
    + intros Hobj. right. split; [|done]. intros Hin. by apply elem_of_nil in Hin.
    + intros [(parser_class & Hin & _)|[_ Hobj]]; [|done].
      by apply elem_of_nil in Hin.
  - rewrite fmap_cons in Hnd. apply NoDup_cons in Hnd as [Hfresh Hnd].
    simpl in Hfresh. simpl fold_left. rewrite (IH _ Hnd).
    rewrite fmap_cons, not_elem_of_cons. simpl. split.
    + intros [(parser_class & Hin & ->)|[Hout Hobj]].
      * left. exists parser_class. split; [by right|done].
      * destruct (decide (name' = name)) as [->|Hne].
        -- rewrite lookup_insert_eq in Hobj. injection Hobj as <-.
           left. exists parser_class'. split; [by left|done].
        -- rewrite lookup_insert_ne in Hobj by done. by right.
    + intros [(parser_class & Hin & ->)|[[Hne Hout] Hobj]].
      * apply elem_of_cons in Hin as [[= -> ->]|Hin].
        -- right. split; [done|]. apply lookup_insert_eq.
        -- left. by exists parser_class.
      * right. split; [done|]. by rewrite lookup_insert_ne.
Qed.

Lemma GetParserObjects_run presets parser_filter_string reg :
  GetParserObjects presets parser_filter_string reg
  = (Return
       (fold_left
          (λ parser_objects (item : string * ParserClass),
             <[item.1 := {| class_of := item.2 |}]> parser_objects)
          (Spec.SelectParsers presets reg parser_filter_string) ∅),
     reg).
Proof.
  unfold GetParserObjects, bind. rewrite GetParsers_run.
  by apply for_each_pure.
Qed.

(** X14: the dictionary of [GetParserObjects] maps a name to an object
    exactly when [GetParsers] yields that name for the same filter string,
    and the object is then an instance of the class yielded with it. *)
Theorem GetParserObjects_instances
    (presets : Presets) (parser_filter_string : option string)
    (reg : gmap string ParserClass) :
  ∃ parsers parser_objects,
    GetParsers presets parser_filter_string reg = (Return parsers, reg)
    ∧ GetParserObjects presets parser_filter_string reg
      = (Return parser_objects, reg)
    ∧ ∀ name object,
        parser_objects !! name = Some object
        ↔ ∃ parser_class,
            (name, parser_class) ∈ parsers
            ∧ object = {| class_of := parser_class |}.
Proof.
  eexists _, _. split_and!.
  - apply GetParsers_run.
  - apply GetParserObjects_run.
  - intros name object.
    rewrite GetParserObjects_loop by apply SelectParsers_NoDup.
    split; [|by left].
    intros [Hin|[_ Hempty]]; [done|]. by rewrite lookup_empty in Hempty.
Qed.

Lemma GetParserObjects_instances_witness :
  ∃ parser_objects,
    GetParserObjects Sample.presets (Some "zip,lnk") Sample.registry
    = (Return parser_objects, Sample.registry)
    ∧ parser_objects !! "zip" = Some {| class_of := Sample.Zip |}.
Proof.
  destruct (GetParserObjects_instances Sample.presets (Some "zip,lnk")
              Sample.registry)
    as (parsers & parser_objects & Hparsers & Hobjects & Hin).
  exists parser_objects. split; [done|].
  apply Hin. exists Sample.Zip. split; [|done].
  apply GetParsers_yields in Hparsers as ->.
  apply SelectParsers_elem. split_and!; [reflexivity| |right; by left].
  intros Hex. by apply elem_of_nil in Hex.
Defined.

(** X15: without a filter string [GetParserObjects] returns one instance per
    entry of the registry, under the same names. *)
Theorem GetParserObjects_all
    (presets : Presets) (reg : gmap string ParserClass) :
  GetParserObjects presets None reg
  = (Return ((λ parser_class, {| class_of := parser_class |}) <$> reg), reg).
Proof.
  rewrite GetParserObjects_run. f_equal. f_equal.
  apply map_eq. intros name. apply option_eq. intros object.
  rewrite GetParserObjects_loop by apply SelectParsers_NoDup.
  rewrite lookup_fmap, fmap_Some. simpl. split.
  - intros [(parser_class & Hin & ->)|[_ Hempty]].
    + exists parser_class. split; [|done]. by apply elem_of_map_to_list.
    + by rewrite lookup_empty in Hempty.
  - intros (parser_class & Hreg & ->). left. exists parser_class.
    split; [|done]. by apply elem_of_map_to_list.
Qed.

(** X16: after a class whose name is "winreg" up to case is registered under
    that fresh name, [GetWindowsRegistryPlugins] returns the plugin list of
    that class. *)
Theorem RegisterParser_then_GetWindowsRegistryPlugins
    (parser_class : ParserClass) (reg : gmap string ParserClass) :
  Text.lower (NAME parser_class) = "winreg" →
  "winreg" ∉ dom reg →
  (RegisterParser parser_class ;; GetWindowsRegistryPlugins) reg
  = (Return (Some (GetPluginList parser_class)),
     <["winreg" := parser_class]> reg).
Proof.
  intros Hname Hfresh. unfold bind.
  rewrite RegisterParser_fresh by (by rewrite Hname). rewrite Hname.
  unfold GetWindowsRegistryPlugins, bind, get_parser_classes.
  by rewrite lookup_insert_eq.
Qed.

Lemma RegisterParser_then_GetWindowsRegistryPlugins_witness :
  (RegisterParser Sample.WinReg ;; GetWindowsRegistryPlugins) Sample.registry
  = (Return (Some {| plugin_list_names := ["run"; "userassist"] |}),
     <["winreg" := Sample.WinReg]> Sample.registry).
Proof.
  apply (RegisterParser_then_GetWindowsRegistryPlugins Sample.WinReg
           Sample.registry).
  - reflexivity.
  - by apply not_elem_of_dom.
Defined.

(** X17: [GetWindowsRegistryPlugins] returns [None], and does not raise,
    exactly when no parser is registered under "winreg". *)
Theorem GetWindowsRegistryPlugins_None_iff (reg : gmap string ParserClass) :
  (GetWindowsRegistryPlugins reg).1 = Return None ↔ "winreg" ∉ dom reg.
Proof.
  unfold GetWindowsRegistryPlugins, bind, get_parser_classes.
  rewrite not_elem_of_dom.
  destruct (reg !! "winreg") as [parser_class|]; simpl; split; try done.
Qed.

Lemma GetWindowsRegistryPlugins_None_iff_witness :
  (GetWindowsRegistryPlugins Sample.registry).1 = Return None.
Proof.
  apply (GetWindowsRegistryPlugins_None_iff Sample.registry).
  by apply not_elem_of_dom.
Defined.

(** ** The store and the scanner *)

Lemma omap_filter_length {A B} (f : A → option B) (l : list A) :
  (length (omap f l) + length (filter (λ x, f x = None) l) = length l)%nat.
Proof.
  induction l as [|x l IH]; [done|].
  rewrite filter_cons.
  change (omap f (x :: l))
    with (match f x with Some y => y :: omap f l | None => omap f l end).
  destruct (f x) eqn:Hfx.
  - rewrite decide_False by done. cbn [length]. lia.
  - rewrite decide_True by done. cbn [length]. lia.
Qed.

(** X18: [GetSpecificationStore] accounts for every selected parser once: the
    format specifications of the store and the names of the remainder are
    together as many as the yielded parsers, no name is twice in the
    remainder, and a name is in the remainder exactly when a yielded parser
    of that name has no format specification. *)
Theorem GetSpecificationStore_accounts
    (presets : Presets) (parser_filter_string : option string)
    (reg : gmap string ParserClass) :
  ∃ parsers store remainder,
    GetParsers presets parser_filter_string reg = (Return parsers, reg)
    ∧ GetSpecificationStore presets parser_filter_string reg
      = (Return (store, remainder), reg)
    ∧ (length (specifications store) + length remainder = length parsers)%nat
    ∧ NoDup remainder
    ∧ ∀ name,
        name ∈ remainder
        ↔ ∃ parser_class,
            (name, parser_class) ∈ parsers
            ∧ GetFormatSpecification parser_class = None.
Proof.
  eexists _, _, _. split_and!.
  - apply GetParsers_run.
  - apply GetSpecificationStore_run.
  - simpl. rewrite length_fmap.
    apply (omap_filter_length (λ item : string * ParserClass,
                                 GetFormatSpecification item.2)).
  - apply NoDup_fst_filter, SelectParsers_NoDup.
  - intros name. rewrite list_elem_of_fmap. split.
    + intros ([name' parser_class] & -> & [Hnone Hin]%list_elem_of_filter).
      by exists parser_class.
    + intros (parser_class & Hin & Hnone). exists (name, parser_class).
      split; [done|]. by apply list_elem_of_filter.
Qed.

Lemma GetSpecificationStore_accounts_witness :
  ∃ store remainder,
    GetSpecificationStore Sample.presets (Some "-bar") Sample.registry
    = (Return (store, remainder), Sample.registry)
    ∧ "foo" ∈ remainder.
Proof.
  destruct (GetSpecificationStore_accounts Sample.presets (Some "-bar")
              Sample.registry)
    as (parsers & store & remainder & Hparsers & Hstore & _ & _ & Hin).
  exists store, remainder. split; [exact Hstore|].
  apply Hin. exists Sample.Foo. split; [|reflexivity].
  apply GetParsers_yields in Hparsers as ->.
  apply SelectParsers_elem. split_and!; [reflexivity| |left; reflexivity].
  intros Hex. vm_compute in Hex.
  repeat (apply elem_of_cons in Hex as [Hex|Hex]; [discriminate|]).
  by apply elem_of_nil in Hex.
Defined.

Lemma GetScanner_signatures store :
  scanner_signatures (GetScanner store)
  = specifications store ≫= λ format_specification,
      Spec.emitted_rule <$> signatures format_specification.
Proof. unfold GetScanner. by rewrite GetScanner_specifications_loop. Qed.

Lemma emitted_rule_identifier signature :
  sig_identifier (Spec.emitted_rule signature) = identifier signature.
Proof.
  unfold Spec.emitted_rule.
  destruct (offset signature) as [n|]; [|done]. by case_decide.
Qed.

Lemma emitted_rule_pattern signature :
  sig_pattern (Spec.emitted_rule signature) = pattern signature.
Proof.
  unfold Spec.emitted_rule.
  destruct (offset signature) as [n|]; [|done]. by case_decide.
Qed.

(** X19: [GetScanner] never hands a negative offset to the scanner, and a
    rule has no offset exactly when its flag is NO_OFFSET. *)
Theorem GetScanner_offsets_not_negative
    (store : FormatSpecificationStore) (rule : ScannerSignature) :
  rule ∈ scanner_signatures (GetScanner store) →
  (sig_offset rule = None ↔ sig_flags rule = NO_OFFSET)
  ∧ ∀ n, sig_offset rule = Some n → 0 ≤ n.
Proof.
  rewrite GetScanner_signatures.
  intros (fs & (signature & -> & _)%list_elem_of_fmap & _)%list_elem_of_bind.
  unfold Spec.emitted_rule.
  destruct (offset signature) as [m|]; [case_decide|]; simpl.
  - split; [by split|]. intros n [= <-]. lia.
  - split; [by split|]. intros n [= <-]. lia.
  - split; [by split|]. by intros n.
Qed.

Lemma GetScanner_offsets_not_negative_witness :
  {| sig_identifier := "zip:0"; sig_offset := Some 4;
     sig_pattern := "PK"; sig_flags := RELATIVE_FROM_END |}
    ∈ scanner_signatures (GetScanner Sample.store)
  ∧ 0 ≤ 4.
Proof.
  assert ({| sig_identifier := "zip:0"; sig_offset := Some 4;
             sig_pattern := "PK"; sig_flags := RELATIVE_FROM_END |}
            ∈ scanner_signatures (GetScanner Sample.store)) as Hrule.
  { vm_compute. right. right. left. }
  split; [exact Hrule|].
  destruct (GetScanner_offsets_not_negative Sample.store _ Hrule)
    as [_ Hoffset].
  apply Hoffset. reflexivity.
Defined.

(** X20: the scanner gets one rule per signature, in the order of the store
    and of the signatures of each format specification, with the identifier
    and the pattern of the signature; equal patterns are not merged. *)
Theorem GetScanner_rule_per_signature (store : FormatSpecificationStore) :
  sig_identifier <$> scanner_signatures (GetScanner store)
  = (specifications store ≫= λ format_specification,
       identifier <$> signatures format_specification)
  ∧ sig_pattern <$> scanner_signatures (GetScanner store)
    = (specifications store ≫= λ format_specification,
         pattern <$> signatures format_specification)
  ∧ length (scanner_signatures (GetScanner store))
    = sum_list_with (λ format_specification,
                       length (signatures format_specification))
        (specifications store).
Proof.
  rewrite GetScanner_signatures.
  induction (specifications store) as [|fs specs (IHid & IHpat & IHlen)].
  - done.
  - rewrite !bind_cons, !fmap_app, length_app, IHid, IHpat, IHlen.
    rewrite <- !list_fmap_compose, length_fmap. simpl. split_and!.
    + f_equal. apply list_fmap_ext. intros i signature _. simpl.
      apply emitted_rule_identifier.
    + f_equal. apply list_fmap_ext. intros i signature _. simpl.
      apply emitted_rule_pattern.
    + done.
Qed.

(** X21: the scanner built from the store of [GetSpecificationStore] has a
    rule for every signature of the format specification of every parser
    that [GetParsers] yields for the same filter string. *)
Theorem GetScanner_of_GetSpecificationStore
    (presets : Presets) (parser_filter_string : option string)
    (reg : gmap string ParserClass) :
  ∃ parsers store remainder,
    GetParsers presets parser_filter_string reg = (Return parsers, reg)
    ∧ GetSpecificationStore presets parser_filter_string reg
      = (Return (store, remainder), reg)
    ∧ ∀ name parser_class format_specification signature,
        (name, parser_class) ∈ parsers →
        GetFormatSpecification parser_class = Some format_specification →
        signature ∈ signatures format_specification →
        ∃ rule,
          rule ∈ scanner_signatures (GetScanner store)
          ∧ sig_identifier rule = identifier signature
          ∧ sig_pattern rule = pattern signature.
Proof.
  eexists _, _, _. split_and!.
  - apply GetParsers_run.
  - apply GetSpecificationStore_run.
  - intros name parser_class fs signature Hin Hfs Hsig.
    exists (Spec.emitted_rule signature). split_and!.
    + rewrite GetScanner_signatures. apply list_elem_of_bind.
      exists fs. split; [by apply list_elem_of_fmap_2|].
      simpl. apply list_elem_of_omap. by exists (name, parser_class).
    + apply emitted_rule_identifier.
    + apply emitted_rule_pattern.
Qed.

Lemma GetScanner_of_GetSpecificationStore_witness :
  ∃ store remainder,
    GetSpecificationStore Sample.presets (Some "zip") Sample.registry
    = (Return (store, remainder), Sample.registry)
    ∧ ∃ rule,
        rule ∈ scanner_signatures (GetScanner store)
        ∧ sig_identifier rule = "zip:0"
        ∧ sig_pattern rule = "PK".
Proof.
  destruct (GetScanner_of_GetSpecificationStore Sample.presets (Some "zip")
              Sample.registry)
    as (parsers & store & remainder & Hparsers & Hstore & Hrule).
  exists store, remainder. split; [exact Hstore|].
  apply (Hrule "zip" Sample.Zip Sample.zip_specification
           Sample.trailer_signature).
  - apply GetParsers_yields in Hparsers as ->.
    apply SelectParsers_elem.
    split_and!; [reflexivity| |right; left; reflexivity].
    intros Hex. by apply elem_of_nil in Hex.
  - reflexivity.
  - left.
Defined.

(** ** Filter strings *)

Lemma split_app sep s1 s2 :
  Text.split sep (s1 +:+ String sep s2)
  = Text.split sep s1 ++ Text.split sep s2.
Proof.
  induction s1 as [|c s1 IH]; simpl.
  - by rewrite decide_True.
  - case_decide; [by rewrite IH|]. rewrite IH.
    pose proof (split_nonempty sep s1).
    by destruct (Text.split sep s1).
Qed.

Lemma tokens_app s1 s2 :
  Spec.tokens (s1 +:+ String "," s2) = Spec.tokens s1 ++ Spec.tokens s2.
Proof. unfold Spec.tokens. by rewrite split_app, fmap_app, filter_app. Qed.

(** X22: a filter string is resolved piece by piece: the lists of two filter
    strings joined by a comma are the lists of the first followed by the
    lists of the second. *)
Theorem GetFilterListsFromString_comma
    (presets : Presets) (reg : gmap string ParserClass) (s1 s2 : string)
    (includes1 excludes1 includes2 excludes2 : list string) :
  (GetFilterListsFromString presets s1 reg).1
  = Return (includes1, excludes1) →
  (GetFilterListsFromString presets s2 reg).1
  = Return (includes2, excludes2) →
  GetFilterListsFromString presets (s1 +:+ "," +:+ s2) reg
  = (Return (includes1 ++ includes2, excludes1 ++ excludes2), reg).
Proof.
  rewrite !GetFilterListsFromString_run. simpl.
  intros [= <- <-] [= <- <-].
  change ("," +:+ s2) with (String "," s2).
  unfold Spec.includes, Spec.excludes.
  by rewrite tokens_app, !filter_app, !bind_app.
Qed.

Lemma GetFilterListsFromString_comma_witness :
  GetFilterListsFromString Sample.presets ("p,-bar" +:+ "," +:+ "-Zip, lnk")
    Sample.registry
  = (Return (["p"; "a"; "b"] ++ ["lnk"], ["bar"] ++ ["zip"]), Sample.registry).
Proof.
  apply (GetFilterListsFromString_comma Sample.presets Sample.registry
           "p,-bar" "-Zip, lnk").
  - reflexivity.
  - reflexivity.
Defined.

(** X23: once a class is deregistered, [GetParsers] yields no parser under
    its lower case name, whatever the filter string. *)
Theorem DeregisterParser_then_GetParsers
    (presets : Presets) (parser_class : ParserClass)
    (parser_filter_string : option string) (reg : gmap string ParserClass) :
  Text.lower (NAME parser_class) ∈ dom reg →
  ∃ parsers reg',
    (DeregisterParser parser_class ;; GetParsers presets parser_filter_string)
      reg
    = (Return parsers, reg')
    ∧ Text.lower (NAME parser_class) ∉ parsers.*1.
Proof.
  intros Hin. eexists _, _. unfold bind.
  rewrite DeregisterParser_present by done. rewrite GetParsers_run.
  split; [reflexivity|].
  intros ([name stored] & Hname & Hsel)%list_elem_of_fmap.
  simpl in Hname. subst name.
  apply SelectParsers_registered in Hsel.
  by rewrite lookup_delete_eq in Hsel.
Qed.

Lemma DeregisterParser_then_GetParsers_witness :
  ∃ parsers reg',
    (DeregisterParser Sample.Zip ;; GetParsers Sample.presets (Some "zip,lnk"))
      Sample.registry
    = (Return parsers, reg')
    ∧ "zip" ∉ parsers.*1.
Proof.
  apply (DeregisterParser_then_GetParsers Sample.presets Sample.Zip
           (Some "zip,lnk") Sample.registry).
  apply elem_of_dom. by eexists.
Defined.
